(** * Health Bridge dashboard card: a shallow embedding of health-bridge-card.js

    The custom element [HealthBridgeCard] is modelled as a record of its
    fields ([config], [_hass], [content], the shadow root's children) next
    to a heap of JavaScript objects, because [setConfig] stores and mutates
    the caller's configuration object by reference.  Every method becomes a
    function from the current world to the next world and the exception it
    raises, if any. *)

From Stdlib Require Import Strings.String Strings.Ascii Lists.List ZArith Bool Lia.
From Stdlib Require Import Sorting.Permutation Sorting.Sorted.
Import ListNotations.
Open Scope string_scope.

(** ** JavaScript values and objects *)

Inductive jsval :=
| JUndef
| JNull
| JBool (b : bool)
| JNum (z : Z)
| JStr (s : string)
| JObj (l : nat).

(** ToBoolean (NaN is not represented among the numbers). *)
Definition truthy (v : jsval) : bool :=
  match v with
  | JUndef | JNull => false
  | JBool b => b
  | JNum z => negb (Z.eqb z 0)
  | JStr s => negb (String.eqb s "")
  | JObj _ => true
  end.

(** An ordinary object: its own properties in insertion order. *)
Definition obj := list (string * jsval).

Fixpoint prop_get (o : obj) (p : string) : jsval :=
  match o with
  | [] => JUndef
  | (q, v) :: o' => if String.eqb p q then v else prop_get o' p
  end.

(** [o.p = v]: overwrite in place, or append a new property at the end. *)
Fixpoint prop_set (o : obj) (p : string) (v : jsval) : obj :=
  match o with
  | [] => [(p, v)]
  | (q, w) :: o' => if String.eqb p q then (q, v) :: o' else (q, w) :: prop_set o' p v
  end.

Definition heap := nat -> obj.

Definition heap_set (h : heap) (l : nat) (o : obj) : heap :=
  fun l' => if Nat.eqb l l' then o else h l'.

Inductive exn := TypeError.

(** [x || d] on an optional string attribute. *)
Definition str_or (o : option string) (d : string) : string :=
  match o with
  | Some s => if String.eqb s "" then d else s
  | None => d
  end.

(** ** Entity states: the host's [hass.states] table *)

Record attributes := {
  friendly_name : option string;
  unit_of_measurement : option string;
  icon : option string
}.

Record entity_state := {
  state : string;
  st_attributes : option attributes
}.

(** [hass.states] in [Object.keys] order.  Entity ids that survive the
    filter start with "sensor.", so no array-index key is reordered here. *)
Definition snapshot := list (string * entity_state).

Definition no_state : entity_state := {| state := ""; st_attributes := None |}.

(** [this._hass.states[entity_id]] *)
Fixpoint lookup (s : snapshot) (id : string) : option entity_state :=
  match s with
  | [] => None
  | (k, st) :: s' => if String.eqb id k then Some st else lookup s' id
  end.

Definition state_of (s : snapshot) (id : string) : entity_state :=
  match lookup s id with Some st => st | None => no_state end.

Definition friendly_of (st : entity_state) : option string :=
  match st_attributes st with Some a => friendly_name a | None => None end.

(** ** String operations used by [updateCard] *)

Definition lparen : ascii := "("%char.
Definition rparen : ascii := ")"%char.
Definition underscore : ascii := "_"%char.
Definition space : ascii := " "%char.

(** [s.includes(c)] for a one-character [c] *)
Fixpoint includes_char (c : ascii) (s : string) : bool :=
  match s with
  | EmptyString => false
  | String c' s' => Ascii.eqb c c' || includes_char c s'
  end.

(** The tail [([^)]+)\)$] without the non-emptiness of the group:
    returns [g] when [r = g ++ ")"] and [g] holds no ')'. *)
Fixpoint close_group (r : string) : option string :=
  match r with
  | EmptyString => None
  | String c r' =>
      if Ascii.eqb c rparen
      then match r' with EmptyString => Some EmptyString | String _ _ => None end
      else option_map (String c) (close_group r')
  end.

(** [\(([^)]+)\)$] anchored at the start of [s]; returns group 1. *)
Definition group_at (s : string) : option string :=
  match s with
  | String c r =>
      if Ascii.eqb c lparen
      then match close_group r with
           | Some (String c' g) => Some (String c' g)
           | _ => None
           end
      else None
  | EmptyString => None
  end.

(** [friendlyName.match(/\(([^)]+)\)$/)] then [matches[1]]: the leftmost
    match, as the regular expression has no flags. *)
Fixpoint match_user (s : string) : option string :=
  match group_at s with
  | Some g => Some g
  | None =>
      match s with
      | EmptyString => None
      | String _ s' => match_user s'
      end
  end.

(** [friendlyName.replace(/ \([^)]+\)$/, '')]: cut at the leftmost match. *)
Fixpoint strip_suffix (s : string) : string :=
  match s with
  | EmptyString => EmptyString
  | String c r =>
      if Ascii.eqb c space && (match group_at r with Some _ => true | None => false end)
      then EmptyString
      else String c (strip_suffix r)
  end.

(** ** Property lookups on the plain object [userEntityMap = {}] *)

(** The properties an ordinary object inherits from [Object.prototype];
    each of them is a function, or ([__proto__]) the prototype itself. *)
Definition object_prototype_names : list string :=
  ["constructor"; "__defineGetter__"; "__defineSetter__"; "hasOwnProperty";
   "__lookupGetter__"; "__lookupSetter__"; "isPrototypeOf";
   "propertyIsEnumerable"; "toString"; "valueOf"; "__proto__";
   "toLocaleString"].

Definition is_proto_name (k : string) : bool :=
  existsb (String.eqb k) object_prototype_names.

Fixpoint assoc {A} (m : list (string * A)) (k : string) : option A :=
  match m with
  | [] => None
  | (k', v) :: m' => if String.eqb k k' then Some v else assoc m' k
  end.

(** [userEntityMap[k].push(id)] on an own property holding an array. *)
Fixpoint push_at (m : list (string * list string)) (k id : string)
  : list (string * list string) :=
  match m with
  | [] => []
  | (k', ids) :: m' =>
      if String.eqb k k' then (k', app ids [id]) :: m' else (k', ids) :: push_at m' k id
  end.

(** Canonical array-index keys ("0", "7", "42", ... below 2^32 - 1). *)
Fixpoint digits_value (s : string) (acc : Z) : option Z :=
  match s with
  | EmptyString => Some acc
  | String c s' =>
      let n := (Z.of_nat (nat_of_ascii c) - 48)%Z in
      if (0 <=? n)%Z && (n <=? 9)%Z then digits_value s' (acc * 10 + n)%Z else None
  end.

Definition array_index (k : string) : option Z :=
  match k with
  | EmptyString => None
  | String c r =>
      if Ascii.eqb c "0"%char
      then (if String.eqb r "" then Some 0%Z else None)
      else match digits_value k 0 with
           | Some z => if (z <? 4294967295)%Z then Some z else None
           | None => None
           end
  end.

Fixpoint insert_index (z : Z) (k : string) (l : list (Z * string)) : list (Z * string) :=
  match l with
  | [] => [(z, k)]
  | (z', k') :: l' => if (z <=? z')%Z then (z, k) :: l else (z', k') :: insert_index z k l'
  end.

Fixpoint index_keys (ks : list string) : list (Z * string) :=
  match ks with
  | [] => []
  | k :: ks' =>
      match array_index k with
      | Some z => insert_index z k (index_keys ks')
      | None => index_keys ks'
      end
  end.

(** [Object.keys]: array-index keys in ascending numeric order, then the
    other string keys in insertion order. *)
Definition object_keys (ks : list string) : list string :=
  app (map snd (index_keys ks))
      (filter (fun k => match array_index k with Some _ => false | None => true end) ks).

(** ** [updateCard] *)

(** The id test of the first [.filter]. *)
Definition id_filter (id : string) : bool :=
  String.prefix "sensor." id && includes_char underscore id.

(** The state test of the second [.filter]:
    [state && state.attributes && friendly_name && friendly_name.includes('(')]. *)
Definition name_filter (st : entity_state) : bool :=
  match friendly_of st with
  | Some fn => negb (String.eqb fn "") && includes_char lparen fn
  | None => false
  end.

(** [healthBridgeEntities] *)
Definition health_bridge_entities (s : snapshot) : list string :=
  filter (fun id => match lookup s id with Some st => name_filter st | None => false end)
         (filter id_filter (map fst s)).

(** The [forEach] that fills [userEntityMap]; [None] is the [TypeError]
    thrown by [.push] when [userId] names an inherited property. *)
Fixpoint group_entities (s : snapshot) (m : list (string * list string)) (ids : list string)
  : option (list (string * list string)) :=
  match ids with
  | [] => Some m
  | id :: ids' =>
      let friendlyName := match friendly_of (state_of s id) with Some f => f | None => "" end in
      match match_user friendlyName with
      | None => group_entities s m ids'
      | Some userId =>
          match assoc m userId with
          | Some _ => group_entities s (push_at m userId id) ids'
          | None =>
              if is_proto_name userId then None
              else group_entities s (app m [(userId, [id])]) ids'
          end
      end
  end.

Inductive card_elem :=
| EIcon (i : string)
| EValue (v : string)
| EName (n : string)
| EUnit (u : string).

(** The children of the card [content] element. *)
Inductive node :=
| NHeader (title : jsval)
| NPlaceholder
| NSection (header : string) (cards : list (list card_elem)).

Definition default_icon : string := "mdi:help-circle".

(** One [metric-card]: icon, value, name and, when [unit] is truthy, unit. *)
Definition metric_card (st : entity_state) : list card_elem :=
  let friendlyName := match friendly_of st with Some f => f | None => "" end in
  let a := st_attributes st in
  let unit := str_or (match a with Some a => unit_of_measurement a | None => None end) "" in
  let ic := str_or (match a with Some a => icon a | None => None end) default_icon in
  let metricName := strip_suffix friendlyName in
  app [EIcon ic; EValue (state st); EName metricName]
      (if String.eqb unit "" then [] else [EUnit unit]).

Definition user_section (s : snapshot) (m : list (string * list string)) (userId : string) : node :=
  NSection ("User: " ++ userId)
           (map (fun id => metric_card (state_of s id))
                (match assoc m userId with Some ids => ids | None => [] end)).

(** What [updateCard] leaves in [content] after [innerHTML = ''], and the
    exception it raises. *)
Definition render (title : jsval) (s : snapshot) : list node * option exn :=
  let header := NHeader title in
  match health_bridge_entities s with
  | [] => ([header; NPlaceholder], None)
  | ents =>
      match group_entities s [] ents with
      | None => ([header], Some TypeError)
      | Some m => (header :: map (user_section s m) (object_keys (map fst m)), None)
      end
  end.

(** ** The custom element *)

Inductive shadow_child := SContent | SStyle.

(** [this.config] holds a reference to the configuration object; [_hass]
    is represented by its [states] table. *)
Record widget := {
  config : option nat;
  hass : option snapshot;
  content : option (list node);
  shadow : list shadow_child
}.

Record world := {
  w_heap : heap;
  w_card : widget
}.

Definition new_widget : widget :=
  {| config := None; hass := None; content := None; shadow := [] |}.

Definition update_card (h : heap) (w : widget) : widget * option exn :=
  match hass w, config w with
  | Some s, Some l =>
      let (nodes, e) := render (prop_get (h l) "title") s in
      ({| config := config w; hass := hass w; content := Some nodes; shadow := shadow w |}, e)
  | _, _ => (w, None)
  end.

(** [set hass(hass)] *)
Definition set_hass (s : snapshot) (wd : world) : world * option exn :=
  let w0 := w_card wd in
  let w1 := {| config := config w0; hass := Some s; content := content w0; shadow := shadow w0 |} in
  let w2 := match content w1 with
            | None => {| config := config w1; hass := hass w1; content := Some [];
                         shadow := app (shadow w1) [SContent; SStyle] |}
            | Some _ => w1
            end in
  let (w3, e) := update_card (w_heap wd) w2 in
  ({| w_heap := w_heap wd; w_card := w3 |}, e).

(** [setConfig(config)].  Reading [title] of [null] or [undefined] throws;
    on another primitive the read gives [undefined] and the assignment
    [config.title = ...] throws in the (strict) class body. *)
Definition set_config (v : jsval) (wd : world) : world * option exn :=
  match v with
  | JObj l =>
      let o := w_heap wd l in
      let h := if truthy (prop_get o "title") then w_heap wd
               else heap_set (w_heap wd) l (prop_set o "title" (JStr "Health Bridge")) in
      let w := w_card wd in
      ({| w_heap := h;
          w_card := {| config := Some l; hass := hass w; content := content w; shadow := shadow w |} |},
       None)
  | JUndef | JNull | JBool _ | JNum _ | JStr _ => (wd, Some TypeError)
  end.

(** ** Sample inputs *)

Definition mk_state (v : string) (fn unit ic : option string) : entity_state :=
  {| state := v;
     st_attributes := Some {| friendly_name := fn; unit_of_measurement := unit; icon := ic |} |}.

Definition steps_alice : entity_state := mk_state "1200" (Some "Steps (alice)") (Some "count") None.
Definition heart_alice : entity_state := mk_state "61" (Some "Heart Rate (alice)") (Some "bpm") None.

(** ** Auxiliary definitions for the statements *)

(** The host delivering a sequence of snapshots through [set hass]. *)
Definition run_hass (ss : list snapshot) (wd : world) : world :=
  fold_left (fun wd s => fst (set_hass s wd)) ss wd.

(** The grouping key [updateCard] extracts from an entity's friendly name. *)
Definition key_of (s : snapshot) (id : string) : option string :=
  match_user (match friendly_of (state_of s id) with Some f => f | None => "" end).

(** No surviving entity's grouping key names an [Object.prototype] property. *)
Definition no_proto_keys (s : snapshot) : bool :=
  forallb (fun id => match key_of s id with Some k => negb (is_proto_name k) | None => true end)
          (health_bridge_entities s).

(** A '(' of [p] that no later ')' of [p] closes. *)
Fixpoint unclosed (p : string) : bool :=
  match p with
  | EmptyString => false
  | String c r => (Ascii.eqb c lparen && negb (includes_char rparen r)) || unclosed r
  end.

Definition empty_world : world := {| w_heap := fun _ => []; w_card := new_widget |}.

(** The grouping keys of a list of entity ids, in order, with repetitions. *)
Definition keys_of (s : snapshot) (ids : list string) : list string :=
  flat_map (fun id => match key_of s id with Some k => [k] | None => [] end) ids.

(** Distinct keys in the order in which each is first seen. *)
Definition add_key (acc : list string) (k : string) : list string :=
  if existsb (String.eqb k) acc then acc else app acc [k].

Definition first_seen (ks : list string) : list string := fold_left add_key ks [].

(** The ids whose grouping key is [k], in the given order. *)
Definition members (s : snapshot) (k : string) (ids : list string) : list string :=
  filter (fun id => match key_of s id with Some k' => String.eqb k' k | None => false end) ids.

(** Grouping by key, stated without reference to [group_entities]. *)
Definition spec_groups (s : snapshot) (ids : list string) : list (string * list string) :=
  map (fun k => (k, members s k ids)) (first_seen (keys_of s ids)).

(** The section headers and the cards of a rendered output, in order. *)
Definition section_headers (nodes : list node) : list string :=
  flat_map (fun n => match n with NSection h _ => [h] | _ => [] end) nodes.

Definition section_cards (nodes : list node) : list (list card_elem) :=
  flat_map (fun n => match n with NSection _ cs => cs | _ => [] end) nodes.

Definition is_section (n : node) : bool :=
  match n with NSection _ _ => true | _ => false end.

(** ** Loading the module: [customElements.define] and [window.customCards] *)

Inductive define_error := NotSupportedError.

Record card_meta := {
  cm_type : string;
  cm_name : string;
  cm_description : string
}.

(** The custom element registry (names defined so far) and
    [window.customCards], absent or an array. *)
Record window_state := {
  defined_elements : list string;
  custom_cards : option (list card_meta)
}.

Definition health_bridge_meta : card_meta :=
  {| cm_type := "health-bridge-card";
     cm_name := "Health Bridge Card";
     cm_description := "A card that displays health metrics from Health Bridge integration" |}.

(** The module's top level: [customElements.define] throws on a name that
    is already defined, before the metadata is pushed. *)
Definition load_module (win : window_state) : window_state * option define_error :=
  if existsb (String.eqb "health-bridge-card") (defined_elements win)
  then (win, Some NotSupportedError)
  else
    let cards := match custom_cards win with Some l => l | None => [] end in
    ({| defined_elements := "health-bridge-card" :: defined_elements win;
        custom_cards := Some (app cards [health_bridge_meta]) |}, None).

(** ** Lemmas about the heap and the widget *)

Example render_alice :
  render (JStr "T") [("sensor.steps_alice", steps_alice); ("sensor.hr_alice", heart_alice)]
  = ([NHeader (JStr "T");
      NSection "User: alice"
        [[EIcon "mdi:help-circle"; EValue "1200"; EName "Steps"; EUnit "count"];
         [EIcon "mdi:help-circle"; EValue "61"; EName "Heart Rate"; EUnit "bpm"]]], None).
Proof. reflexivity. Qed.


Lemma prop_get_set_same : forall o p v, prop_get (prop_set o p v) p = v.
Proof.
  induction o as [|[q w] o IH]; intros p v; simpl.
  - rewrite String.eqb_refl; reflexivity.
  - destruct (String.eqb p q) eqn:E; simpl.
    + rewrite E; reflexivity.
    + rewrite E; apply IH.
Qed.

Lemma heap_set_same : forall h l o, heap_set h l o l = o.
Proof. intros; unfold heap_set; rewrite Nat.eqb_refl; reflexivity. Qed.

Lemma heap_set_other : forall h l l' o, l <> l' -> heap_set h l o l' = h l'.
Proof. intros; unfold heap_set; apply Nat.eqb_neq in H; rewrite H; reflexivity. Qed.

Lemma set_hass_heap : forall s wd, w_heap (fst (set_hass s wd)) = w_heap wd.
Proof.
  intros s [h w]; unfold set_hass, update_card; simpl.
  destruct (content w), (config w); simpl; try reflexivity;
    destruct (render _ s); reflexivity.
Qed.

Lemma set_hass_config : forall s wd, config (w_card (fst (set_hass s wd))) = config (w_card wd).
Proof.
  intros s [h w]; unfold set_hass, update_card; simpl.
  destruct (content w), (config w); simpl; try reflexivity;
    destruct (render _ s); reflexivity.
Qed.

Lemma set_hass_content : forall s wd l,
  config (w_card wd) = Some l ->
  content (w_card (fst (set_hass s wd))) = Some (fst (render (prop_get (w_heap wd l) "title") s)).
Proof.
  intros s [h w] l Hc; simpl in Hc; unfold set_hass, update_card; simpl.
  rewrite Hc; destruct (content w); simpl;
    destruct (render _ s); reflexivity.
Qed.

Lemma run_hass_heap_config : forall ss wd,
  w_heap (run_hass ss wd) = w_heap wd /\ config (w_card (run_hass ss wd)) = config (w_card wd).
Proof.
  induction ss as [|s ss IH]; intros wd; simpl.
  - split; reflexivity.
  - destruct (IH (fst (set_hass s wd))) as [H1 H2].
    rewrite H1, H2, set_hass_heap, set_hass_config; split; reflexivity.
Qed.

Lemma run_hass_last : forall ss s wd,
  run_hass (app ss [s]) wd = fst (set_hass s (run_hass ss wd)).
Proof. intros; unfold run_hass; rewrite fold_left_app; reflexivity. Qed.

Lemma render_header : forall t s, exists rest, fst (render t s) = NHeader t :: rest.
Proof.
  intros t s; unfold render.
  destruct (health_bridge_entities s); [eexists; reflexivity|].
  destruct (group_entities _ _ _); eexists; reflexivity.
Qed.

Lemma set_config_obj_title : forall h w l,
  prop_get (w_heap (fst (set_config (JObj l) {| w_heap := h; w_card := w |})) l) "title"
  = if truthy (prop_get (h l) "title") then prop_get (h l) "title" else JStr "Health Bridge".
Proof.
  intros h w l; simpl.
  destruct (truthy (prop_get (h l) "title")); simpl; [reflexivity|].
  rewrite heap_set_same, prop_get_set_same; reflexivity.
Qed.

(** Every render after [setConfig(config)] shows the resolved title. *)
Lemma header_after_set_config : forall h w l ss s,
  let wd := fst (set_config (JObj l) {| w_heap := h; w_card := w |}) in
  exists rest, content (w_card (run_hass (app ss [s]) wd))
    = Some (NHeader (if truthy (prop_get (h l) "title") then prop_get (h l) "title"
                     else JStr "Health Bridge") :: rest).
Proof.
  intros h w l ss s wd.
  rewrite run_hass_last.
  destruct (run_hass_heap_config ss wd) as [Hh Hc].
  rewrite (set_hass_content s _ l) by (rewrite Hc; reflexivity).
  rewrite Hh; unfold wd; rewrite set_config_obj_title.
  destruct (render_header (if truthy (prop_get (h l) "title") then prop_get (h l) "title"
                           else JStr "Health Bridge") s) as [rest Hr].
  exists rest; rewrite Hr; reflexivity.
Qed.

(** ** Claims *)

(** C4: calling the [hass] setter twice with the same snapshot leaves the
    widget (configuration, stored snapshot, rendered content, shadow root)
    and the heap exactly as one call does, and raises the same exception. *)
Theorem set_hass_idempotent : forall s wd,
  set_hass s (fst (set_hass s wd)) = set_hass s wd.
Proof.
  intros s [h [c hs ct sh]]; unfold set_hass, update_card; simpl.
  destruct ct as [ct|]; destruct c as [l|]; simpl;
    try (destruct (render (prop_get (h l) "title") s) as [nodes e] eqn:E; simpl;
         rewrite ?E);
    reflexivity.
Qed.

(** C9: a configuration whose [title] is unset or "" makes every later
    render show the header "Health Bridge"; a non-empty title string is
    shown as it is. *)
Theorem config_title_header : forall h w l,
  ((prop_get (h l) "title" = JUndef \/ prop_get (h l) "title" = JStr "") ->
   prop_get (w_heap (fst (set_config (JObj l) {| w_heap := h; w_card := w |})) l) "title"
     = JStr "Health Bridge" /\
   forall ss s, exists rest,
     content (w_card (run_hass (app ss [s]) (fst (set_config (JObj l) {| w_heap := h; w_card := w |}))))
     = Some (NHeader (JStr "Health Bridge") :: rest)) /\
  (forall t, t <> "" -> prop_get (h l) "title" = JStr t ->
   forall ss s, exists rest,
     content (w_card (run_hass (app ss [s]) (fst (set_config (JObj l) {| w_heap := h; w_card := w |}))))
     = Some (NHeader (JStr t) :: rest)).
Proof.
  intros h w l; split.
  - intros Ht.
    assert (Hf : truthy (prop_get (h l) "title") = false)
      by (destruct Ht as [Ht|Ht]; rewrite Ht; reflexivity).
    split.
    + rewrite set_config_obj_title, Hf; reflexivity.
    + intros ss s; pose proof (header_after_set_config h w l ss s) as H; cbv zeta in H.
      rewrite Hf in H; exact H.
  - intros t Hne Ht ss s; pose proof (header_after_set_config h w l ss s) as H; cbv zeta in H.
    rewrite Ht in H; simpl in H.
    destruct (String.eqb t "") eqn:E; [apply String.eqb_eq in E; contradiction|].
    exact H.
Qed.

Lemma config_title_header_witness :
  (prop_get ((fun _ => []) 0) "title" = JUndef \/ prop_get ((fun _ => []) 0) "title" = JStr "") /\
  prop_get (w_heap (fst (set_config (JObj 0) empty_world)) 0) "title" = JStr "Health Bridge".
Proof.
  split; [left; reflexivity|].
  apply (proj1 (proj1 (config_title_header (fun _ => []) new_widget 0) (or_introl eq_refl))).
Defined.

(** C6 (counterexample): [setConfig({})] writes [title] into the caller's
    own object. *)
Lemma set_config_mutates_caller_object :
  w_heap (fst (set_config (JObj 0) empty_world)) 0 <> w_heap empty_world 0.
Proof. simpl; discriminate. Qed.

(** C6 (amended): [setConfig(config)] on an object stores a reference to
    that very object as the configuration, leaves every other widget field
    and every other object unchanged, raises nothing, and changes the
    caller's object only by setting [title] to "Health Bridge" when its
    [title] is falsy. *)
Theorem set_config_frame : forall h w l,
  snd (set_config (JObj l) {| w_heap := h; w_card := w |}) = None /\
  w_card (fst (set_config (JObj l) {| w_heap := h; w_card := w |}))
    = {| config := Some l; hass := hass w; content := content w; shadow := shadow w |} /\
  (forall l', l' <> l -> w_heap (fst (set_config (JObj l) {| w_heap := h; w_card := w |})) l' = h l') /\
  w_heap (fst (set_config (JObj l) {| w_heap := h; w_card := w |})) l
    = (if truthy (prop_get (h l) "title") then h l
       else prop_set (h l) "title" (JStr "Health Bridge")).
Proof.
  intros h w l; simpl; split; [reflexivity|]; split; [reflexivity|]; split.
  - intros l' Hne; destruct (truthy (prop_get (h l) "title")); [reflexivity|].
    apply heap_set_other; congruence.
  - destruct (truthy (prop_get (h l) "title")); [reflexivity|].
    apply heap_set_same.
Qed.

Lemma set_config_frame_witness :
  (1 <> 0)%nat /\ w_heap (fst (set_config (JObj 0) empty_world)) 1 = [].
Proof.
  split; [discriminate|].
  exact (proj1 (proj2 (proj2 (set_config_frame (fun _ => []) new_widget 0))) 1 ltac:(discriminate)).
Defined.

Lemma group_entities_ok : forall s ids m,
  forallb (fun id => match key_of s id with Some k => negb (is_proto_name k) | None => true end) ids
    = true ->
  exists m', group_entities s m ids = Some m'.
Proof.
  intros s; induction ids as [|id ids IH]; intros m Hall; simpl in *.
  - eexists; reflexivity.
  - apply andb_prop in Hall as [Hid Hall]; unfold key_of in Hid.
    destruct (match_user _) as [k|]; [|apply IH; exact Hall].
    destruct (assoc m k); [apply IH; exact Hall|].
    apply negb_true_iff in Hid; rewrite Hid; apply IH; exact Hall.
Qed.

Lemma render_no_error : forall t s, no_proto_keys s = true -> snd (render t s) = None.
Proof.
  intros t s H; unfold no_proto_keys in H; unfold render.
  destruct (health_bridge_entities s) as [|id ids] eqn:E; [reflexivity|].
  destruct (group_entities_ok s (id :: ids) [] H) as [m Hm]; rewrite Hm; reflexivity.
Qed.

(** C5 (counterexample): [setConfig(null)] throws, and so does a render in
    which a grouping key is "constructor". *)
Lemma widget_throws :
  snd (set_config JNull empty_world) = Some TypeError /\
  snd (render (JStr "Health Bridge")
         [("sensor.steps_x", mk_state "1" (Some "Steps (constructor)") None None)])
    = Some TypeError.
Proof. split; reflexivity. Qed.

(** C5 (amended): [setConfig] throws a [TypeError] on every non-object
    argument; the render pass and the [hass] setter raise nothing on any
    snapshot whose surviving grouping keys name no [Object.prototype]
    property, whatever the entities' attributes. *)
Theorem widget_error_behaviour :
  (forall v wd, (forall l, v <> JObj l) -> snd (set_config v wd) = Some TypeError) /\
  (forall t s, no_proto_keys s = true -> snd (render t s) = None) /\
  (forall s wd, no_proto_keys s = true -> snd (set_hass s wd) = None).
Proof.
  split; [|split].
  - intros v wd Hv; destruct v as [| |b|z|str|l]; try reflexivity.
    exfalso; exact (Hv l eq_refl).
  - exact render_no_error.
  - intros s [h w] Hs; unfold set_hass, update_card; simpl.
    destruct (content w), (config w) as [lc|]; simpl; try reflexivity;
      pose proof (render_no_error (prop_get (h lc) "title") s Hs) as Hr;
      destruct (render _ s); simpl in *; exact Hr.
Qed.

Lemma widget_error_behaviour_witness :
  (forall l, JNull <> JObj l) /\ snd (set_config JNull empty_world) = Some TypeError /\
  no_proto_keys [("sensor.steps_alice", steps_alice)] = true /\
  snd (render (JStr "T") [("sensor.steps_alice", steps_alice)]) = None.
Proof.
  split; [intros l; discriminate|]; split.
  - apply (proj1 widget_error_behaviour); intros l; discriminate.
  - split; [reflexivity|].
    apply (proj1 (proj2 widget_error_behaviour)); reflexivity.
Defined.

(** C8: a missing [icon] puts "mdi:help-circle" in the icon slot and a
    missing [unit_of_measurement] leaves out the unit element (the card
    keeps exactly icon, value and name); the other elements are those of
    the same entity with the attribute present. *)
Theorem metric_card_defaults : forall v fn u ic,
  metric_card (mk_state v fn u None) = EIcon default_icon :: tl (metric_card (mk_state v fn u ic)) /\
  metric_card (mk_state v fn None ic) = firstn 3 (metric_card (mk_state v fn u ic)) /\
  length (metric_card (mk_state v fn None ic)) = 3.
Proof.
  intros v fn u ic; unfold metric_card, mk_state; simpl.
  split; [reflexivity|split; [|reflexivity]].
  destruct (String.eqb (str_or u "") ""); reflexivity.
Qed.

(** C1 (failing input): the only sensor is named "Steps ()": it passes
    the filter, so no placeholder is drawn, yet it forms no group, and the
    card content is the title header alone. *)
Theorem no_group_without_placeholder :
  group_entities [("sensor.steps_alice", mk_state "1200" (Some "Steps ()") None None)] []
    (health_bridge_entities [("sensor.steps_alice", mk_state "1200" (Some "Steps ()") None None)])
    = Some [] /\
  render (JStr "Health Bridge") [("sensor.steps_alice", mk_state "1200" (Some "Steps ()") None None)]
    = ([NHeader (JStr "Health Bridge")], None).
Proof. split; reflexivity. Qed.

(** ** Lemmas about the regular expressions *)

Lemma includes_char_app : forall c p q,
  includes_char c (p ++ q) = includes_char c p || includes_char c q.
Proof.
  intros c p q; induction p as [|a p IH]; simpl; [reflexivity|].
  rewrite IH, orb_assoc; reflexivity.
Qed.

Lemma close_group_closed : forall g,
  includes_char rparen g = false -> close_group (g ++ ")") = Some g.
Proof.
  induction g as [|a g IH]; intros H; [reflexivity|].
  cbn [includes_char] in H; apply orb_false_iff in H as [Ha Hg].
  cbn [close_group append]; rewrite (Ascii.eqb_sym a), Ha, IH by exact Hg; reflexivity.
Qed.

Lemma close_group_spec : forall r g,
  close_group r = Some g -> r = g ++ ")" /\ includes_char rparen g = false.
Proof.
  induction r as [|a r IH]; intros g H; cbn [close_group] in H; [discriminate|].
  destruct (Ascii.eqb a rparen) eqn:Ea.
  - apply Ascii.eqb_eq in Ea; subst a.
    destruct r; [|discriminate]; inversion H; subst; split; reflexivity.
  - destruct (close_group r) as [g'|] eqn:E; [|discriminate].
    cbn [option_map] in H; inversion H; subst.
    destruct (IH g' eq_refl) as [-> Hg]; split; [reflexivity|].
    cbn [includes_char]; rewrite Ascii.eqb_sym, Ea, Hg; reflexivity.
Qed.

(** A ')' followed by more text rules out the anchored tail. *)
Lemma close_group_inner_rparen : forall q t,
  includes_char rparen q = true -> t <> "" -> close_group (q ++ t) = None.
Proof.
  intros q t Hq Ht; destruct (close_group (q ++ t)) as [g|] eqn:E; [|reflexivity].
  exfalso; apply close_group_spec in E as [E Hg].
  revert g E Hg Hq; induction q as [|a q IH]; intros g E Hg Hq; [discriminate|].
  destruct g as [|b g]; cbn [append] in E.
  - inversion E; subst; destruct q; [|discriminate].
    cbn [append] in H1; subst t; apply Ht; reflexivity.
  - inversion E; subst.
    cbn [includes_char] in Hg, Hq; apply orb_false_iff in Hg as [Hb Hg].
    rewrite Hb in Hq; cbn [orb] in Hq.
    exact (IH g H1 Hg Hq).
Qed.

Lemma match_user_cons : forall a r,
  match_user (String a r) = match group_at (String a r) with Some g => Some g | None => match_user r end.
Proof. reflexivity. Qed.

Lemma strip_suffix_cons : forall a r,
  strip_suffix (String a r)
  = if Ascii.eqb a space && (match group_at r with Some _ => true | None => false end)
    then EmptyString else String a (strip_suffix r).
Proof. reflexivity. Qed.

Lemma append_empty_r : forall p, p ++ "" = p.
Proof. induction p as [|a p IH]; cbn [append]; [reflexivity|rewrite IH; reflexivity]. Qed.

Lemma append_assoc_str : forall p q r, (p ++ q) ++ r = p ++ (q ++ r).
Proof. induction p as [|a p IH]; intros; cbn [append]; [reflexivity|rewrite IH; reflexivity]. Qed.

(** Where every '(' of [p] is closed inside [p], no match starts in [p]. *)

Lemma group_at_closed_cons : forall a p t,
  unclosed (String a p) = false -> t <> "" -> group_at (String a (p ++ t)) = None.
Proof.
  intros a p t Hp Ht; cbn [unclosed] in Hp; apply orb_false_iff in Hp as [Ha _].
  unfold group_at; destruct (Ascii.eqb a lparen) eqn:Ea; [|reflexivity].
  rewrite andb_true_l in Ha; apply negb_false_iff in Ha.
  rewrite close_group_inner_rparen by assumption; reflexivity.
Qed.

Lemma match_user_skip : forall p t,
  unclosed p = false -> t <> "" -> match_user (p ++ t) = match_user t.
Proof.
  induction p as [|a p IH]; intros t Hp Ht; [reflexivity|].
  cbn [append]; rewrite match_user_cons, group_at_closed_cons by assumption.
  apply IH; [|exact Ht].
  cbn [unclosed] in Hp; apply orb_false_iff in Hp as [_ Hp]; exact Hp.
Qed.

Lemma strip_suffix_skip : forall p t,
  unclosed p = false -> t <> "" -> group_at t = None ->
  strip_suffix (p ++ t) = p ++ strip_suffix t.
Proof.
  induction p as [|a p IH]; intros t Hp Ht Hg; [reflexivity|].
  cbn [append]; rewrite strip_suffix_cons.
  assert (Hp' : unclosed p = false)
    by (cbn [unclosed] in Hp; apply orb_false_iff in Hp as [_ Hp]; exact Hp).
  assert (Hn : group_at (p ++ t) = None).
  { destruct p as [|b p]; [exact Hg|].
    cbn [append]; apply group_at_closed_cons; assumption. }
  rewrite Hn, andb_false_r, IH by assumption; reflexivity.
Qed.

Lemma match_user_key : forall fn k,
  match_user fn = Some k -> k <> "" /\ includes_char rparen k = false.
Proof.
  induction fn as [|a r IH]; intros k H; [discriminate|].
  rewrite match_user_cons in H.
  destruct (group_at (String a r)) as [g|] eqn:Eg; [|exact (IH k H)].
  inversion H; subst g; clear H.
  unfold group_at in Eg; destruct (Ascii.eqb a lparen); [|discriminate].
  destruct (close_group r) as [[|c g]|] eqn:Ec; try discriminate.
  inversion Eg; subst k.
  apply close_group_spec in Ec as [_ Hg]; split; [discriminate|exact Hg].
Qed.

Lemma match_user_lparen : forall fn k, match_user fn = Some k -> includes_char lparen fn = true.
Proof.
  induction fn as [|a r IH]; intros k H; [discriminate|].
  rewrite match_user_cons in H; cbn [includes_char].
  destruct (group_at (String a r)) as [g|] eqn:Eg.
  - unfold group_at in Eg; destruct (Ascii.eqb a lparen) eqn:Ea; [|discriminate].
    rewrite Ascii.eqb_sym, Ea; reflexivity.
  - rewrite (IH k H), orb_true_r; reflexivity.
Qed.

Lemma group_at_space : forall r, group_at (String space r) = None.
Proof. reflexivity. Qed.

(** The friendly name "<Name> (<user>)" of the naming convention. *)
Lemma convention_name : forall name user,
  unclosed name = false -> user <> "" -> includes_char rparen user = false ->
  match_user (name ++ " (" ++ user ++ ")") = Some user /\
  strip_suffix (name ++ " (" ++ user ++ ")") = name.
Proof.
  intros name user Hn Hu Hr.
  assert (Hc : close_group (user ++ ")") = Some user) by (apply close_group_closed; exact Hr).
  assert (Hg : group_at ("(" ++ user ++ ")") = Some user).
  { cbn [append group_at]; change (Ascii.eqb "(" lparen) with true; rewrite Hc.
    destruct user; [contradiction|reflexivity]. }
  split.
  - rewrite match_user_skip by (assumption || discriminate).
    cbn [append]; rewrite match_user_cons, group_at_space, match_user_cons.
    cbn [append] in Hg; rewrite Hg; reflexivity.
  - rewrite strip_suffix_skip by (assumption || discriminate || reflexivity).
    cbn [append]; rewrite strip_suffix_cons; cbn [append] in Hg; rewrite Hg.
    apply append_empty_r.
Qed.

(** ** Lemmas about grouping *)

Lemma existsb_eqb_In : forall k l, existsb (String.eqb k) l = true <-> In k l.
Proof.
  intros k l; rewrite existsb_exists; split.
  - intros [x [Hx E]]; apply String.eqb_eq in E; subst; exact Hx.
  - intros H; exists k; split; [exact H|apply String.eqb_refl].
Qed.

Lemma first_seen_snoc : forall ks k, first_seen (app ks [k]) = add_key (first_seen ks) k.
Proof. intros; unfold first_seen; rewrite fold_left_app; reflexivity. Qed.

Lemma fold_add_key_In : forall ks acc x,
  In x (fold_left add_key ks acc) <-> In x acc \/ In x ks.
Proof.
  induction ks as [|k ks IH]; intros acc x; simpl.
  - tauto.
  - rewrite IH; unfold add_key.
    destruct (existsb (String.eqb k) acc) eqn:E.
    + apply existsb_eqb_In in E; split; [tauto|].
      intros [H|[H|H]]; auto; subst; auto.
    + rewrite in_app_iff; simpl; tauto.
Qed.

Lemma fold_add_key_NoDup : forall ks acc, NoDup acc -> NoDup (fold_left add_key ks acc).
Proof.
  induction ks as [|k ks IH]; intros acc H; simpl; [exact H|].
  apply IH; unfold add_key.
  destruct (existsb (String.eqb k) acc) eqn:E; [exact H|].
  apply NoDup_app; [exact H|constructor; [intros []|constructor]|].
  intros a Ha [Hk|[]]; subst a.
  apply (proj2 (existsb_eqb_In k acc)) in Ha; congruence.
Qed.

Lemma In_first_seen : forall ks x, In x (first_seen ks) <-> In x ks.
Proof.
  intros ks x; unfold first_seen.
  rewrite fold_add_key_In; simpl; tauto.
Qed.

Lemma NoDup_first_seen : forall ks, NoDup (first_seen ks).
Proof. intros ks; apply fold_add_key_NoDup; constructor. Qed.

Lemma In_keys_of : forall s ids k,
  In k (keys_of s ids) <-> exists id, In id ids /\ key_of s id = Some k.
Proof.
  intros s ids k; unfold keys_of; rewrite in_flat_map; split.
  - intros [id [Hid Hk]]; exists id; split; [exact Hid|].
    destruct (key_of s id); [destruct Hk as [->|[]]; reflexivity|destruct Hk].
  - intros [id [Hid Hk]]; exists id; split; [exact Hid|rewrite Hk; left; reflexivity].
Qed.

Lemma members_nil : forall s k ids, ~ In k (keys_of s ids) -> members s k ids = [].
Proof.
  intros s k ids H; unfold members.
  induction ids as [|id ids IH]; [reflexivity|]; simpl.
  destruct (key_of s id) as [k'|] eqn:E.
  - destruct (String.eqb k' k) eqn:Ek.
    + exfalso; apply String.eqb_eq in Ek; subst; apply H, In_keys_of.
      exists id; split; [left; reflexivity|exact E].
    + apply IH; intros Hin; apply In_keys_of in Hin; apply H, In_keys_of.
      destruct Hin as [x [Hx Hk]]; exists x; split; [right; exact Hx|exact Hk].
  - apply IH; intros Hin; apply H; unfold keys_of; simpl; rewrite E; exact Hin.
Qed.

Lemma assoc_map : forall {A} (g : string -> A) K k,
  assoc (map (fun k => (k, g k)) K) k = if existsb (String.eqb k) K then Some (g k) else None.
Proof.
  intros A g K k; induction K as [|k0 K IH]; [reflexivity|]; simpl.
  destruct (String.eqb k k0) eqn:E; [apply String.eqb_eq in E; subst; reflexivity|].
  exact IH.
Qed.

Lemma push_at_map : forall g K k id,
  NoDup K ->
  push_at (map (fun k => (k, g k)) K) k id
  = map (fun k' => (k', if String.eqb k' k then app (g k') [id] else g k')) K.
Proof.
  intros g K k id; induction K as [|k0 K IH]; intros Hnd; [reflexivity|].
  inversion Hnd as [|? ? Hn Hnd']; subst; simpl.
  rewrite (String.eqb_sym k0 k).
  destruct (String.eqb k k0) eqn:E.
  - apply String.eqb_eq in E; subst k0; f_equal.
    apply map_ext_in; intros k' Hk'.
    destruct (String.eqb k' k) eqn:E'; [|reflexivity].
    apply String.eqb_eq in E'; subst; contradiction.
  - f_equal; apply IH; exact Hnd'.
Qed.

Lemma group_entities_cons : forall s m id ids,
  group_entities s m (id :: ids)
  = match key_of s id with
    | None => group_entities s m ids
    | Some k =>
        match assoc m k with
        | Some _ => group_entities s (push_at m k id) ids
        | None => if is_proto_name k then None else group_entities s (app m [(k, [id])]) ids
        end
    end.
Proof. reflexivity. Qed.

Lemma members_snoc : forall s k pre id,
  members s k (app pre [id])
  = app (members s k pre)
        (match key_of s id with Some k' => if String.eqb k' k then [id] else [] | None => [] end).
Proof.
  intros; unfold members; rewrite filter_app; simpl.
  destruct (key_of s id); [destruct (String.eqb _ k)|]; reflexivity.
Qed.

Lemma keys_of_snoc : forall s pre id,
  keys_of s (app pre [id])
  = app (keys_of s pre) (match key_of s id with Some k => [k] | None => [] end).
Proof. intros; unfold keys_of; rewrite flat_map_app; simpl; rewrite app_nil_r; reflexivity. Qed.

Lemma spec_groups_snoc_none : forall s pre id,
  key_of s id = None -> spec_groups s (app pre [id]) = spec_groups s pre.
Proof.
  intros s pre id E; unfold spec_groups.
  rewrite keys_of_snoc, E, app_nil_r.
  apply map_ext; intros k; rewrite members_snoc, E, app_nil_r; reflexivity.
Qed.

Lemma spec_groups_snoc_old : forall s pre id k,
  key_of s id = Some k -> In k (first_seen (keys_of s pre)) ->
  spec_groups s (app pre [id]) = push_at (spec_groups s pre) k id.
Proof.
  intros s pre id k E Hin; unfold spec_groups.
  rewrite push_at_map by apply NoDup_first_seen.
  rewrite keys_of_snoc, E, first_seen_snoc; unfold add_key.
  rewrite (proj2 (existsb_eqb_In _ _) Hin).
  apply map_ext; intros k'; rewrite members_snoc, E.
  rewrite (String.eqb_sym k k').
  destruct (String.eqb k' k); [reflexivity|rewrite app_nil_r; reflexivity].
Qed.

Lemma spec_groups_snoc_new : forall s pre id k,
  key_of s id = Some k -> ~ In k (first_seen (keys_of s pre)) ->
  spec_groups s (app pre [id]) = app (spec_groups s pre) [(k, [id])].
Proof.
  intros s pre id k E Hn; unfold spec_groups.
  rewrite keys_of_snoc, E, first_seen_snoc; unfold add_key.
  destruct (existsb (String.eqb k) (first_seen (keys_of s pre))) eqn:Ex.
  { apply existsb_eqb_In in Ex; contradiction. }
  rewrite map_app; simpl; f_equal.
  - apply map_ext_in; intros k' Hk'; rewrite members_snoc, E.
    destruct (String.eqb k k') eqn:Ek; [|rewrite app_nil_r; reflexivity].
    apply String.eqb_eq in Ek; subst; contradiction.
  - rewrite members_snoc, E, String.eqb_refl, members_nil; [reflexivity|].
    intros H; apply Hn, In_first_seen, H.
Qed.

Lemma group_entities_spec : forall s rest pre,
  forallb (fun id => match key_of s id with Some k => negb (is_proto_name k) | None => true end) rest
    = true ->
  group_entities s (spec_groups s pre) rest = Some (spec_groups s (app pre rest)).
Proof.
  intros s; induction rest as [|id rest IH]; intros pre Hall.
  - rewrite app_nil_r; reflexivity.
  - simpl in Hall; apply andb_prop in Hall as [Hid Hall].
    replace (app pre (id :: rest)) with (app (app pre [id]) rest)
      by (rewrite <- app_assoc; reflexivity).
    rewrite group_entities_cons.
    destruct (key_of s id) as [k|] eqn:E.
    + unfold spec_groups at 1; rewrite assoc_map; fold (spec_groups s pre).
      destruct (existsb (String.eqb k) (first_seen (keys_of s pre))) eqn:Ex.
      * apply existsb_eqb_In in Ex.
        rewrite <- (spec_groups_snoc_old s pre id k E Ex); apply IH; exact Hall.
      * apply negb_true_iff in Hid; rewrite Hid.
        assert (Hn : ~ In k (first_seen (keys_of s pre)))
          by (intros H; apply existsb_eqb_In in H; congruence).
        rewrite <- (spec_groups_snoc_new s pre id k E Hn); apply IH; exact Hall.
    + rewrite <- (spec_groups_snoc_none s pre id E); apply IH; exact Hall.
Qed.

Lemma group_entities_from_empty : forall s ids,
  forallb (fun id => match key_of s id with Some k => negb (is_proto_name k) | None => true end) ids
    = true ->
  group_entities s [] ids = Some (spec_groups s ids).
Proof. intros s ids H; apply (group_entities_spec s ids [] H). Qed.

Lemma insert_index_In : forall z k l x, In x (insert_index z k l) <-> x = (z, k) \/ In x l.
Proof.
  intros z k l x; induction l as [|[z' k'] l IH]; simpl; [intuition congruence|].
  destruct (z <=? z')%Z; simpl; [intuition congruence|rewrite IH; intuition congruence].
Qed.

Lemma index_keys_In : forall ks z k,
  In (z, k) (index_keys ks) <-> In k ks /\ array_index k = Some z.
Proof.
  induction ks as [|k0 ks IH]; intros z k; simpl; [tauto|].
  destruct (array_index k0) as [z0|] eqn:E.
  - rewrite insert_index_In, IH; split.
    + intros [H|[H1 H2]]; [inversion H; subst; auto|auto].
    + intros [[H|H] H2]; [subst; rewrite E in H2; inversion H2; subst; auto|auto].
  - rewrite IH; split; [tauto|].
    intros [[H|H] H2]; [subst; congruence|auto].
Qed.

Lemma In_object_keys : forall ks k, In k (object_keys ks) <-> In k ks.
Proof.
  intros ks k; unfold object_keys; rewrite in_app_iff, filter_In, in_map_iff.
  split.
  - intros [[[z k'] [Hk Hin]]|[H _]]; [|exact H].
    simpl in Hk; subst k'; apply index_keys_In in Hin; tauto.
  - intros H; destruct (array_index k) as [z|] eqn:E.
    + left; exists (z, k); split; [reflexivity|apply index_keys_In; auto].
    + right; auto.
Qed.

(** The sections [updateCard] draws, as a function of the grouping. *)
Lemma render_spec : forall t s,
  no_proto_keys s = true -> health_bridge_entities s <> [] ->
  fst (render t s)
  = NHeader t ::
    map (fun k => NSection ("User: " ++ k)
                    (map (fun id => metric_card (state_of s id))
                         (members s k (health_bridge_entities s))))
        (object_keys (first_seen (keys_of s (health_bridge_entities s)))).
Proof.
  intros t s Hp Hne; unfold no_proto_keys in Hp; unfold render.
  destruct (health_bridge_entities s) as [|e es] eqn:Ee; [contradiction|].
  rewrite group_entities_from_empty by exact Hp; simpl; f_equal.
  unfold spec_groups; rewrite map_map; simpl; rewrite map_id.
  apply map_ext_in; intros k Hk; unfold user_section.
  rewrite assoc_map.
  apply (proj1 (In_object_keys _ _)), existsb_eqb_In in Hk; rewrite Hk; reflexivity.
Qed.

Lemma map_fst_push_at : forall m k id, map fst (push_at m k id) = map fst m.
Proof.
  induction m as [|[k' ids] m IH]; intros k id; simpl; [reflexivity|].
  destruct (String.eqb k k'); simpl; [reflexivity|rewrite IH; reflexivity].
Qed.

Lemma group_entities_keys : forall (P : string -> Prop) s ids m m',
  (forall id k, key_of s id = Some k -> P k) ->
  (forall k, In k (map fst m) -> P k) ->
  group_entities s m ids = Some m' -> forall k, In k (map fst m') -> P k.
Proof.
  intros P s; induction ids as [|id ids IH]; intros m m' HP Hm Hg.
  - inversion Hg; subst; exact Hm.
  - rewrite group_entities_cons in Hg.
    destruct (key_of s id) as [k0|] eqn:E; [|exact (IH m m' HP Hm Hg)].
    destruct (assoc m k0).
    + apply (IH (push_at m k0 id) m' HP); [|exact Hg].
      rewrite map_fst_push_at; exact Hm.
    + destruct (is_proto_name k0); [discriminate|].
      apply (IH (app m [(k0, [id])]) m' HP); [|exact Hg].
      intros k Hk; rewrite map_app, in_app_iff in Hk; simpl in Hk.
      destruct Hk as [Hk|[Hk|[]]]; [exact (Hm k Hk)|subst; exact (HP id k E)].
Qed.

(** C7 (counterexample): "bob" is seen before "1", yet the section of the
    array-index key "1" is drawn first. *)
Lemma numeric_key_section_first :
  fst (render (JStr "Health Bridge")
         [("sensor.steps_bob", mk_state "10" (Some "Steps (bob)") None None);
          ("sensor.steps_1", mk_state "20" (Some "Steps (1)") None None)])
  = [NHeader (JStr "Health Bridge");
     NSection "User: 1" [[EIcon default_icon; EValue "20"; EName "Steps"]];
     NSection "User: bob" [[EIcon default_icon; EValue "10"; EName "Steps"]]].
Proof. reflexivity. Qed.

(** C7 (amended): when some entity passes the filter and the render does
    not throw, each key's cards are its entities in snapshot order, and
    the sections follow [Object.keys] order of the keys taken in first-seen
    order: canonical array-index keys ascending first, then the others in
    first-seen order.  "Steps (alice)" and "Heart Rate (alice)" share the
    one section of "alice", in snapshot order. *)
Theorem group_order : forall t s,
  no_proto_keys s = true -> health_bridge_entities s <> [] ->
  fst (render t s)
  = NHeader t ::
    map (fun k => NSection ("User: " ++ k)
                    (map (fun id => metric_card (state_of s id))
                         (members s k (health_bridge_entities s))))
        (object_keys (first_seen (keys_of s (health_bridge_entities s)))) /\
  fst (render t [("sensor.steps_alice", steps_alice); ("sensor.hr_alice", heart_alice)])
  = [NHeader t; NSection "User: alice" [metric_card steps_alice; metric_card heart_alice]].
Proof.
  intros t s Hp Hne; split; [exact (render_spec t s Hp Hne)|reflexivity].
Qed.

Lemma group_order_witness :
  let s := [("sensor.steps_bob", mk_state "10" (Some "Steps (bob)") None None);
            ("sensor.steps_alice", steps_alice);
            ("sensor.steps_1", mk_state "20" (Some "Steps (1)") None None);
            ("sensor.hr_alice", heart_alice);
            ("sensor.hr_bob", mk_state "70" (Some "Heart Rate (bob)") None None)] in
  no_proto_keys s = true /\ health_bridge_entities s <> [] /\
  fst (render (JStr "T") s)
  = [NHeader (JStr "T");
     NSection "User: 1" [[EIcon default_icon; EValue "20"; EName "Steps"]];
     NSection "User: bob" [[EIcon default_icon; EValue "10"; EName "Steps"];
                           [EIcon default_icon; EValue "70"; EName "Heart Rate"]];
     NSection "User: alice" [metric_card steps_alice; metric_card heart_alice]].
Proof.
  intros s; split; [reflexivity|]; split; [discriminate|].
  rewrite (proj1 (group_order (JStr "T") s eq_refl ltac:(discriminate))).
  reflexivity.
Defined.

(** A name with an unclosed '(' splits at the first one. *)
Lemma first_unclosed_split : forall p,
  unclosed p = true ->
  exists a b, p = a ++ "(" ++ b /\ unclosed a = false /\ includes_char rparen b = false.
Proof.
  induction p as [|c r IH]; intros H; [discriminate|].
  cbn [unclosed] in H.
  destruct (Ascii.eqb c lparen && negb (includes_char rparen r)) eqn:Ec.
  - apply andb_prop in Ec as [Ec Er]; apply Ascii.eqb_eq in Ec; subst c.
    apply negb_true_iff in Er.
    exists "", r; split; [reflexivity|split; [reflexivity|exact Er]].
  - rewrite orb_false_l in H; destruct (IH H) as [a [b [-> [Ha Hb]]]].
    exists (String c a), b; split; [reflexivity|split; [|exact Hb]].
    cbn [unclosed]; rewrite Ha, orb_false_r.
    destruct (Ascii.eqb c lparen) eqn:Ec'; [|reflexivity].
    rewrite andb_true_l in Ec |- *; apply negb_false_iff in Ec; apply negb_false_iff.
    rewrite includes_char_app in Ec; cbn [includes_char append] in Ec.
    rewrite Hb in Ec; change (Ascii.eqb rparen "(") with false in Ec.
    rewrite orb_false_r in Ec; exact Ec.
Qed.

(** The key of [a ++ "(" ++ b ++ "()"], where the '(' after [a] is the
    first unclosed one, is everything between it and the final ')'. *)
Lemma match_user_first_unclosed : forall a b,
  unclosed a = false -> includes_char rparen b = false ->
  match_user (a ++ "(" ++ b ++ "()") = Some (b ++ "(").
Proof.
  intros a b Ha Hb.
  rewrite match_user_skip by (assumption || discriminate).
  assert (Hc : close_group (b ++ "()") = Some (b ++ "(")).
  { replace (b ++ "()") with ((b ++ "(") ++ ")") by (rewrite append_assoc_str; reflexivity).
    apply close_group_closed; rewrite includes_char_app, Hb; reflexivity. }
  cbn [append]; rewrite match_user_cons; cbn [group_at]; change (Ascii.eqb "(" lparen) with true.
  rewrite Hc; destruct b; reflexivity.
Qed.

(** C10 (counterexample): "Steps (b()" ends in "()" but its entity is
    grouped under the key "b(". *)
Lemma empty_parens_suffix_grouped :
  fst (render (JStr "Health Bridge") [("sensor.steps_x", mk_state "5" (Some "Steps (b()") None None)])
  = [NHeader (JStr "Health Bridge");
     NSection "User: b(" [[EIcon default_icon; EValue "5"; EName "Steps"]]].
Proof. reflexivity. Qed.

(** C10 (amended): every key with a section is non-empty and holds no ')';
    a friendly name [p ++ "()"] in which every '(' of [p] is closed by a
    later ')' of [p] (such as "Steps ()") passes the step-3 filter yet
    yields no key; otherwise [p] has a first unclosed '(', and the key runs
    from just after it up to the final ')' (so "Steps (b()" gives "b("). *)
Theorem section_keys_wellformed :
  (forall t s hdr cards, In (NSection hdr cards) (fst (render t s)) ->
     exists k, hdr = "User: " ++ k /\ k <> "" /\ includes_char rparen k = false) /\
  (forall p, unclosed p = false ->
     match_user (p ++ "()") = None /\
     forall v u i, name_filter (mk_state v (Some (p ++ "()")) u i) = true) /\
  (forall p, unclosed p = true ->
     exists a b, p = a ++ "(" ++ b /\ unclosed a = false /\ includes_char rparen b = false /\
       match_user (p ++ "()") = Some (b ++ "(")).
Proof.
  split.
  - intros t s hdr cards Hin; unfold render in Hin.
    destruct (health_bridge_entities s) as [|e es].
    { simpl in Hin; destruct Hin as [H|[H|[]]]; discriminate. }
    destruct (group_entities s [] (e :: es)) as [m|] eqn:Hg.
    2:{ simpl in Hin; destruct Hin as [H|[]]; discriminate. }
    simpl in Hin; destruct Hin as [H|Hin]; [discriminate|].
    apply in_map_iff in Hin as [k [Hk Hkin]].
    unfold user_section in Hk; inversion Hk; subst hdr.
    exists k; split; [reflexivity|].
    apply (proj1 (In_object_keys _ _)) in Hkin.
    apply (group_entities_keys (fun k => k <> "" /\ includes_char rparen k = false)
             s (e :: es) [] m); [|intros ? []|exact Hg|exact Hkin].
    intros id k' Hk'; exact (match_user_key _ _ Hk').
  - split; [intros p Hp; split|].
    + rewrite match_user_skip by (assumption || discriminate); reflexivity.
    + intros v u i; unfold name_filter, mk_state, friendly_of; cbn [st_attributes friendly_name].
      rewrite includes_char_app, orb_true_r, andb_true_r.
      destruct p; reflexivity.
    + intros p Hp; destruct (first_unclosed_split p Hp) as [a [b [-> [Ha Hb]]]].
      exists a, b; split; [reflexivity|split; [exact Ha|split; [exact Hb|]]].
      rewrite !append_assoc_str; exact (match_user_first_unclosed a b Ha Hb).
Qed.

Lemma section_keys_wellformed_witness :
  unclosed "Steps" = false /\ match_user ("Steps" ++ "()") = None /\
  unclosed "Steps (b" = true /\
  (exists a b, "Steps (b" = a ++ "(" ++ b /\ unclosed a = false /\
     includes_char rparen b = false /\ match_user ("Steps (b" ++ "()") = Some (b ++ "(")) /\
  match_user ("Steps (b" ++ "()") = Some "b(".
Proof.
  split; [reflexivity|]; split.
  - exact (proj1 (proj1 (proj2 section_keys_wellformed) "Steps" eq_refl)).
  - split; [reflexivity|]; split; [|reflexivity].
    exact (proj2 (proj2 section_keys_wellformed) "Steps (b" eq_refl).
Defined.

Lemma lookup_NoDup : forall s id st,
  NoDup (map fst s) -> In (id, st) s -> lookup s id = Some st.
Proof.
  induction s as [|[k st0] s IH]; intros id st Hnd Hin; [destruct Hin|].
  simpl in Hnd; inversion Hnd as [|? ? Hk Hnd']; subst; simpl.
  destruct Hin as [E|Hin].
  - inversion E; subst; rewrite String.eqb_refl; reflexivity.
  - destruct (String.eqb id k) eqn:E.
    + apply String.eqb_eq in E; subst; exfalso; apply Hk.
      apply in_map_iff; exists (k, st); auto.
    + exact (IH id st Hnd' Hin).
Qed.

Lemma In_health_bridge_entities : forall s id,
  In id (health_bridge_entities s) <->
  In id (map fst s) /\ id_filter id = true /\
  match lookup s id with Some st => name_filter st | None => false end = true.
Proof.
  intros s id; unfold health_bridge_entities; rewrite !filter_In; tauto.
Qed.

Lemma NoDup_health_bridge_entities : forall s,
  NoDup (map fst s) -> NoDup (health_bridge_entities s).
Proof. intros s H; unfold health_bridge_entities; apply NoDup_filter, NoDup_filter, H. Qed.

(** C2 (counterexample): with the display name "Blood (mmHg" the key
    becomes "mmHg (alice", not "alice". *)
Lemma unclosed_name_wrong_key :
  fst (render (JStr "Health Bridge")
         [("sensor.bp_alice", mk_state "120" (Some ("Blood (mmHg" ++ " (" ++ "alice" ++ ")"))
                                (Some "mmHg") None)])
  = [NHeader (JStr "Health Bridge");
     NSection "User: mmHg (alice" [[EIcon default_icon; EValue "120"; EName "Blood"; EUnit "mmHg"]]].
Proof. reflexivity. Qed.

(** C2 (amended): an entity with a sensor id and friendly name
    "<Name> (<user>)", where [user] is non-empty without ')' and every '('
    of [Name] is closed by a later ')' of [Name], has the key [user], is
    a member of that group exactly once and of no other, and its card,
    inside the section "User: <user>", shows the name [Name], the raw
    [state] string and the unit; this holds whenever the render does not
    throw. *)
Theorem convention_card : forall t s id st name user,
  NoDup (map fst s) -> In (id, st) s -> id_filter id = true ->
  friendly_of st = Some (name ++ " (" ++ user ++ ")") ->
  unclosed name = false -> user <> "" -> includes_char rparen user = false ->
  no_proto_keys s = true ->
  key_of s id = Some user /\
  count_occ string_dec (members s user (health_bridge_entities s)) id = 1 /\
  (forall k, k <> user -> ~ In id (members s k (health_bridge_entities s))) /\
  In (NSection ("User: " ++ user)
        (map (fun x => metric_card (state_of s x)) (members s user (health_bridge_entities s))))
     (fst (render t s)) /\
  (exists a, st_attributes st = Some a /\
     metric_card st
     = app [EIcon (str_or (icon a) default_icon); EValue (state st); EName name]
           (if String.eqb (str_or (unit_of_measurement a) "") "" then []
            else [EUnit (str_or (unit_of_measurement a) "")])).
Proof.
  intros t s id st name user Hnd Hin Hid Hfn Hn Hu Hr Hp.
  destruct (convention_name name user Hn Hu Hr) as [Hm Hs].
  assert (Hl : lookup s id = Some st) by exact (lookup_NoDup s id st Hnd Hin).
  assert (Hk : key_of s id = Some user)
    by (unfold key_of, state_of; rewrite Hl, Hfn; exact Hm).
  assert (He : In id (health_bridge_entities s)).
  { apply In_health_bridge_entities; split; [apply in_map_iff; exists (id, st); auto|].
    split; [exact Hid|]; rewrite Hl; unfold name_filter; rewrite Hfn.
    rewrite (match_user_lparen _ _ Hm).
    destruct name; reflexivity. }
  assert (Hmem : In id (members s user (health_bridge_entities s))).
  { unfold members; apply filter_In; split; [exact He|rewrite Hk; apply String.eqb_refl]. }
  split; [exact Hk|]; split; [|split; [|split]].
  - apply NoDup_count_occ'; [|exact Hmem].
    unfold members; apply NoDup_filter, NoDup_health_bridge_entities, Hnd.
  - intros k Hne Hk'; unfold members in Hk'; apply filter_In in Hk' as [_ Hk'].
    rewrite Hk in Hk'; apply String.eqb_eq in Hk'; congruence.
  - rewrite (render_spec t s Hp) by (intros E; rewrite E in He; destruct He).
    right; apply in_map_iff; exists user; split; [reflexivity|].
    apply In_object_keys, In_first_seen, In_keys_of; exists id; auto.
  - unfold friendly_of in Hfn; destruct (st_attributes st) as [a|] eqn:Ea; [|discriminate].
    exists a; split; [reflexivity|].
    unfold metric_card, friendly_of; rewrite Ea, Hfn, Hs; reflexivity.
Qed.

Lemma convention_card_witness :
  key_of [("sensor.steps_alice", steps_alice)] "sensor.steps_alice" = Some "alice" /\
  metric_card steps_alice = [EIcon "mdi:help-circle"; EValue "1200"; EName "Steps"; EUnit "count"].
Proof.
  destruct (convention_card (JStr "Health Bridge") [("sensor.steps_alice", steps_alice)]
              "sensor.steps_alice" steps_alice "Steps" "alice")
    as [Hk [_ [_ [_ [a [Ha Hc]]]]]];
    [repeat constructor; simpl; tauto | left; reflexivity | reflexivity | reflexivity
    | reflexivity | discriminate | reflexivity | reflexivity |].
  split; [exact Hk|]; rewrite Hc; simpl in Ha; inversion Ha; subst a; reflexivity.
Defined.

(** ** Lemmas about removing one entity from the snapshot *)

Section Removal.

Variable s : snapshot.
Variable id : string.

Let s' := filter (fun p => negb (String.eqb (fst p) id)) s.

Lemma lookup_remove : forall x, x <> id -> lookup s' x = lookup s x.
Proof.
  intros x Hx; unfold s'; induction s as [|[k st] r IH]; [reflexivity|]; simpl.
  destruct (String.eqb k id) eqn:Ek; simpl.
  - apply String.eqb_eq in Ek; subst k.
    apply String.eqb_neq in Hx; rewrite Hx; exact IH.
  - destruct (String.eqb x k); [reflexivity|exact IH].
Qed.

Lemma key_of_remove : forall x, x <> id -> key_of s' x = key_of s x.
Proof. intros x Hx; unfold key_of, state_of; rewrite lookup_remove by exact Hx; reflexivity. Qed.

Lemma state_of_remove : forall x, x <> id -> state_of s' x = state_of s x.
Proof. intros x Hx; unfold state_of; rewrite lookup_remove by exact Hx; reflexivity. Qed.

Lemma entities_remove :
  health_bridge_entities s' = filter (fun x => negb (String.eqb x id)) (health_bridge_entities s).
Proof.
  unfold health_bridge_entities.
  assert (Hm : map fst s' = filter (fun x => negb (String.eqb x id)) (map fst s)).
  { unfold s'; clear s'; induction s as [|[k st] r IH]; [reflexivity|]; simpl.
    destruct (String.eqb k id); simpl; [exact IH|rewrite IH; reflexivity]. }
  rewrite Hm; generalize (map fst s) as L.
  induction L as [|x L IH]; [reflexivity|]; simpl.
  destruct (String.eqb x id) eqn:Ex; simpl.
  - apply String.eqb_eq in Ex; subst x.
    destruct (id_filter id); simpl; [|exact IH].
    destruct (match lookup s id with Some st => name_filter st | None => false end); simpl;
      [rewrite String.eqb_refl; simpl|]; exact IH.
  - assert (Hx : x <> id) by (apply String.eqb_neq; exact Ex).
    destruct (id_filter x); simpl; [|exact IH].
    rewrite lookup_remove by exact Hx.
    destruct (match lookup s x with Some st => name_filter st | None => false end); simpl;
      [rewrite Ex; simpl; rewrite IH; reflexivity|exact IH].
Qed.

Lemma group_entities_remove : forall ids m,
  ~ In id ids -> group_entities s m ids = group_entities s' m ids.
Proof.
  induction ids as [|x ids IH]; intros m Hn; [reflexivity|].
  rewrite !group_entities_cons.
  assert (Hx : x <> id) by (intros E; apply Hn; left; congruence).
  assert (Hn' : ~ In id ids) by (intros H; apply Hn; right; exact H).
  rewrite key_of_remove by exact Hx.
  destruct (key_of s x) as [k|]; [|apply IH; exact Hn'].
  destruct (assoc m k); [apply IH; exact Hn'|].
  destruct (is_proto_name k); [reflexivity|apply IH; exact Hn'].
Qed.

Lemma group_entities_skip : key_of s id = None -> forall ids m,
  group_entities s m ids = group_entities s m (filter (fun x => negb (String.eqb x id)) ids).
Proof.
  intros Hk; induction ids as [|x ids IH]; intros m; [reflexivity|].
  cbn [filter]; destruct (String.eqb x id) eqn:Ex; cbn [negb].
  - apply String.eqb_eq in Ex; subst x.
    rewrite group_entities_cons, Hk; apply IH.
  - rewrite !group_entities_cons.
    destruct (key_of s x) as [k|]; [|apply IH].
    destruct (assoc m k); [apply IH|].
    destruct (is_proto_name k); [reflexivity|apply IH].
Qed.

End Removal.

Lemma push_at_In : forall m k0 x k l,
  In (k, l) (push_at m k0 x) -> exists l0, In (k, l0) m /\ (l = l0 \/ l = app l0 [x]).
Proof.
  induction m as [|[k1 l1] m IH]; intros k0 x k l H; [destruct H|]; simpl in H.
  destruct (String.eqb k0 k1).
  - destruct H as [E|H].
    + inversion E; subst; exists l1; split; [left; reflexivity|right; reflexivity].
    + exists l; split; [right; exact H|left; reflexivity].
  - destruct H as [E|H].
    + inversion E; subst; exists l; split; [left; reflexivity|left; reflexivity].
    + destruct (IH k0 x k l H) as [l0 [H1 H2]]; exists l0; split; [right; exact H1|exact H2].
Qed.

Lemma group_entities_absent : forall s y ids m m',
  group_entities s m ids = Some m' ->
  (forall k l, In (k, l) m -> ~ In y l) ->
  (forall x, In x ids -> key_of s x <> None -> x <> y) ->
  forall k l, In (k, l) m' -> ~ In y l.
Proof.
  intros s y; induction ids as [|x ids IH]; intros m m' Hg Hm Hx.
  - inversion Hg; subst; exact Hm.
  - rewrite group_entities_cons in Hg.
    assert (Hx' : forall z, In z ids -> key_of s z <> None -> z <> y)
      by (intros z Hz; apply Hx; right; exact Hz).
    destruct (key_of s x) as [k0|] eqn:E; [|exact (IH m m' Hg Hm Hx')].
    assert (Hxy : x <> y) by (apply Hx; [left; reflexivity|congruence]).
    destruct (assoc m k0) as [l1|].
    + apply (IH _ m' Hg); [|exact Hx'].
      intros k l Hin Hy; destruct (push_at_In m k0 x k l Hin) as [l0 [H1 [->| ->]]].
      * exact (Hm k l0 H1 Hy).
      * apply in_app_iff in Hy as [Hy|[Hy|[]]]; [exact (Hm k l0 H1 Hy)|congruence].
    + destruct (is_proto_name k0); [discriminate|].
      apply (IH _ m' Hg); [|exact Hx'].
      intros k l Hin Hy; apply in_app_iff in Hin as [Hin|[Hin|[]]]; [exact (Hm k l Hin Hy)|].
      inversion Hin; subst; destruct Hy as [Hy|[]]; congruence.
Qed.

Lemma render_error_iff : forall t s,
  snd (render t s)
  = match group_entities s [] (health_bridge_entities s) with
    | Some _ => None
    | None => Some TypeError
    end.
Proof.
  intros t s; unfold render.
  destruct (health_bridge_entities s); [reflexivity|].
  destruct (group_entities _ _ _); reflexivity.
Qed.

Lemma filter_all_true : forall {A} (f : A -> bool) l,
  (forall x, In x l -> f x = true) -> filter f l = l.
Proof.
  intros A f l H; induction l as [|x l IH]; [reflexivity|]; simpl.
  rewrite (H x (or_introl eq_refl)), IH; [reflexivity|].
  intros y Hy; apply H; right; exact Hy.
Qed.

Lemma assoc_In : forall {A} (m : list (string * A)) k v, assoc m k = Some v -> In (k, v) m.
Proof.
  intros A m k v; induction m as [|[k' v'] m IH]; intros H; [discriminate|]; simpl in H.
  destruct (String.eqb k k') eqn:E.
  - apply String.eqb_eq in E; inversion H; subst; left; reflexivity.
  - right; exact (IH H).
Qed.

(** C3: an entity whose id is not a "sensor." id with an '_', or whose
    friendly name is absent or has no "(...)" suffix, belongs to no group;
    the grouping, and with it whether the render throws, is that of the
    snapshot without it, and so is the whole rendered output whenever some
    other entity passes the filter. *)
Theorem excluded_entity : forall t s id st,
  NoDup (map fst s) -> In (id, st) s ->
  (id_filter id = false \/ friendly_of st = None \/
   exists fn, friendly_of st = Some fn /\ match_user fn = None) ->
  let s' := filter (fun p => negb (String.eqb (fst p) id)) s in
  group_entities s [] (health_bridge_entities s) = group_entities s' [] (health_bridge_entities s') /\
  (forall m, group_entities s [] (health_bridge_entities s) = Some m ->
     forall k l, In (k, l) m -> ~ In id l) /\
  snd (render t s) = snd (render t s') /\
  (health_bridge_entities s' <> [] -> render t s = render t s').
Proof.
  intros t s id st Hnd Hin Hexc s'.
  assert (Hl : lookup s id = Some st) by exact (lookup_NoDup s id st Hnd Hin).
  assert (Hex : ~ In id (health_bridge_entities s) \/ key_of s id = None).
  { destruct Hexc as [Hf|[Hf|[fn [Hf Hm]]]].
    - left; intros H; apply In_health_bridge_entities in H; destruct H as [_ [H _]]; congruence.
    - right; unfold key_of, state_of; rewrite Hl, Hf; reflexivity.
    - right; unfold key_of, state_of; rewrite Hl, Hf; exact Hm. }
  assert (Hg : group_entities s [] (health_bridge_entities s)
               = group_entities s' [] (health_bridge_entities s')).
  { unfold s'; rewrite entities_remove.
    destruct Hex as [Hn|Hk].
    - rewrite (filter_all_true _ (health_bridge_entities s)).
      + apply group_entities_remove; exact Hn.
      + intros x Hx; apply negb_true_iff, String.eqb_neq; intros E; subst; contradiction.
    - rewrite (group_entities_skip s id Hk).
      apply group_entities_remove.
      intros H; apply filter_In in H as [_ H]; rewrite String.eqb_refl in H; discriminate. }
  assert (Ha : forall m, group_entities s [] (health_bridge_entities s) = Some m ->
                 forall k l, In (k, l) m -> ~ In id l).
  { intros m Hm; apply (group_entities_absent s id _ [] m Hm); [intros ? ? []|].
    intros x Hx Hkx E; subst x.
    destruct Hex as [Hn|Hk]; [contradiction|contradiction]. }
  split; [exact Hg|]; split; [exact Ha|]; split.
  - rewrite !render_error_iff, Hg; reflexivity.
  - intros Hne.
    assert (Hne' : health_bridge_entities s <> []).
    { intros E; apply Hne; unfold s'; rewrite entities_remove, E; reflexivity. }
    pose proof (Ha) as Ha'.
    unfold render.
    destruct (health_bridge_entities s) as [|a as_] eqn:E1; [contradiction|].
    destruct (health_bridge_entities s') as [|b bs] eqn:E2; [contradiction|].
    rewrite Hg.
    destruct (group_entities s' [] (b :: bs)) as [m|] eqn:Em; [|reflexivity].
    do 2 f_equal; apply map_ext_in; intros k _.
    unfold user_section; destruct (assoc m k) as [l|] eqn:Ek; [|reflexivity].
    f_equal; apply map_ext_in; intros x Hx.
    unfold s'; rewrite state_of_remove; [reflexivity|].
    intros E; subst x.
    exact (Ha' m Hg k l (assoc_In m k l Ek) Hx).
Qed.

Lemma excluded_entity_witness :
  group_entities [("sensor.steps_alice", steps_alice); ("sensor.steps_x", mk_state "1" (Some "Steps") None None)] []
    (health_bridge_entities [("sensor.steps_alice", steps_alice); ("sensor.steps_x", mk_state "1" (Some "Steps") None None)])
  = group_entities [("sensor.steps_alice", steps_alice)] []
    (health_bridge_entities [("sensor.steps_alice", steps_alice)]).
Proof.
  exact (proj1 (excluded_entity (JStr "T")
    [("sensor.steps_alice", steps_alice); ("sensor.steps_x", mk_state "1" (Some "Steps") None None)]
    "sensor.steps_x" (mk_state "1" (Some "Steps") None None)
    ltac:(repeat constructor; simpl; intuition discriminate)
    ltac:(right; left; reflexivity)
    ltac:(right; right; exists "Steps"; split; reflexivity))).
Defined.

(** ** Further properties of the card *)

Lemma set_hass_shadow : forall s wd,
  content (w_card (fst (set_hass s wd))) <> None /\
  shadow (w_card (fst (set_hass s wd)))
  = match content (w_card wd) with
    | None => app (shadow (w_card wd)) [SContent; SStyle]
    | Some _ => shadow (w_card wd)
    end.
Proof.
  intros s [h w]; unfold set_hass, update_card; simpl.
  destruct (content w) as [c|]; destruct (config w) as [l|]; simpl;
    try (destruct (render (prop_get (h l) "title") s); simpl);
    split; try discriminate; reflexivity.
Qed.

(** The content element and the style element are attached to the shadow
    root on the first [hass] update only, however many follow. *)
Theorem shadow_children_once : forall ss wd,
  content (w_card wd) = None -> ss <> [] ->
  shadow (w_card (run_hass ss wd)) = app (shadow (w_card wd)) [SContent; SStyle].
Proof.
  intros ss; induction ss as [|s ss IH] using rev_ind; intros wd Hc Hne; [contradiction|].
  rewrite run_hass_last.
  destruct ss as [|s0 ss0].
  - simpl; rewrite (proj2 (set_hass_shadow s wd)), Hc; reflexivity.
  - assert (Hne' : s0 :: ss0 <> []) by discriminate.
    destruct (set_hass_shadow s (run_hass (s0 :: ss0) wd)) as [_ ->].
    assert (Hsome : content (w_card (run_hass (s0 :: ss0) wd)) <> None).
    { destruct (exists_last Hne') as [l [x Hx]]; rewrite Hx, run_hass_last.
      exact (proj1 (set_hass_shadow x _)). }
    destruct (content (w_card (run_hass (s0 :: ss0) wd))); [|contradiction].
    exact (IH wd Hc Hne').
Qed.

Lemma shadow_children_once_witness :
  shadow (w_card (run_hass [[]; []] empty_world)) = [SContent; SStyle].
Proof. exact (shadow_children_once [[]; []] empty_world eq_refl ltac:(discriminate)). Defined.

(** Every [hass] update of a configured card rebuilds its content from the
    configured title and the new snapshot alone: earlier snapshots leave
    no trace, and the update raises what the render raises. *)
Theorem update_rebuilds : forall ss s wd l,
  config (w_card wd) = Some l ->
  content (w_card (run_hass (app ss [s]) wd)) = Some (fst (render (prop_get (w_heap wd l) "title") s)) /\
  snd (set_hass s (run_hass ss wd)) = snd (render (prop_get (w_heap wd l) "title") s).
Proof.
  intros ss s wd l Hc.
  destruct (run_hass_heap_config ss wd) as [Hh Hc'].
  split.
  - rewrite run_hass_last, (set_hass_content s _ l) by (rewrite Hc'; exact Hc).
    rewrite Hh; reflexivity.
  - destruct (run_hass ss wd) as [h w] eqn:E; simpl in Hh, Hc'.
    unfold set_hass, update_card; simpl; rewrite Hc', Hc, Hh.
    destruct (content w); simpl; destruct (render _ s); reflexivity.
Qed.

Lemma update_rebuilds_witness :
  content (w_card (run_hass [[]; [("sensor.steps_alice", steps_alice)]]
                   (fst (set_config (JObj 0) empty_world))))
  = Some (fst (render (JStr "Health Bridge") [("sensor.steps_alice", steps_alice)])).
Proof.
  exact (proj1 (update_rebuilds [[]] [("sensor.steps_alice", steps_alice)]
                  (fst (set_config (JObj 0) empty_world)) 0 eq_refl)).
Defined.

(** A [hass] update before [setConfig] renders nothing and raises nothing;
    a later [setConfig] does not render either, so the content stays empty
    until the next [hass] update. *)
Theorem configure_after_first_update : forall h s v,
  snd (set_hass s {| w_heap := h; w_card := new_widget |}) = None /\
  content (w_card (fst (set_hass s {| w_heap := h; w_card := new_widget |}))) = Some [] /\
  content (w_card (fst (set_config v (fst (set_hass s {| w_heap := h; w_card := new_widget |})))))
    = Some [].
Proof.
  intros h s v; split; [reflexivity|split; [reflexivity|]].
  destruct v; reflexivity.
Qed.

Lemma render_placeholder : forall t s,
  health_bridge_entities s = [] -> render t s = ([NHeader t; NPlaceholder], None).
Proof. intros t s E; unfold render; rewrite E; reflexivity. Qed.

(** A grouping map built from [{}] never holds an [Object.prototype] name
    as a key, so the first such key met makes [.push] throw. *)
Lemma group_entities_proto_fails : forall s ids m,
  (forall k l, In (k, l) m -> is_proto_name k = false) ->
  forallb (fun id => match key_of s id with Some k => negb (is_proto_name k) | None => true end) ids
    = false ->
  group_entities s m ids = None.
Proof.
  intros s; induction ids as [|id ids IH]; intros m Hm Hall; [discriminate|].
  cbn [forallb] in Hall; rewrite group_entities_cons.
  destruct (key_of s id) as [k|] eqn:Ek; [|apply IH; assumption].
  destruct (is_proto_name k) eqn:Ep; cbn [negb andb] in Hall.
  - destruct (assoc m k) as [v|] eqn:Ea; [|reflexivity].
    apply assoc_In in Ea; rewrite (Hm _ _ Ea) in Ep; discriminate.
  - destruct (assoc m k) as [v|]; apply IH; try exact Hall.
    + intros k' l' Hin; apply push_at_In in Hin as [l0 [Hin _]]; exact (Hm _ _ Hin).
    + intros k' l' Hin; apply in_app_or in Hin as [Hin|[E|[]]]; [exact (Hm _ _ Hin)|].
      inversion E; subst; exact Ep.
Qed.

(** The render throws exactly when some entity that passes the filter has
    a grouping key naming an [Object.prototype] property. *)
Theorem render_throws_iff_proto_key : forall t s,
  snd (render t s) = Some TypeError <-> no_proto_keys s = false.
Proof.
  intros t s; split.
  - intros H; destruct (no_proto_keys s) eqn:E; [|reflexivity].
    rewrite (render_no_error t s E) in H; discriminate.
  - intros H; unfold no_proto_keys in H; unfold render.
    destruct (health_bridge_entities s) as [|e es]; [discriminate|].
    rewrite (group_entities_proto_fails s (e :: es) []); [reflexivity|intros ? ? []|exact H].
Qed.

Lemma render_throws_iff_proto_key_witness :
  snd (render (JStr "T") [("sensor.steps_alice", steps_alice);
                          ("sensor.x_y", mk_state "1" (Some "X (toString)") None None)])
  = Some TypeError.
Proof. apply (proj2 (render_throws_iff_proto_key _ _)); reflexivity. Defined.

Lemma group_at_spec : forall r g,
  group_at r = Some g -> r = "(" ++ g ++ ")" /\ g <> "" /\ includes_char rparen g = false.
Proof.
  intros [|c r] g H; [discriminate|]; unfold group_at in H.
  destruct (Ascii.eqb c lparen) eqn:Ec; [|discriminate].
  apply Ascii.eqb_eq in Ec; subst c.
  destruct (close_group r) as [[|c' g']|] eqn:E; try discriminate.
  inversion H; subst g; apply close_group_spec in E as [-> Hg].
  split; [reflexivity|split; [discriminate|exact Hg]].
Qed.

(** [replace(/ \([^)]+\)$/, '')] either leaves the friendly name whole or
    removes exactly a final " (g)" with [g] non-empty and free of ')'. *)
Theorem metric_name_strip : forall fn,
  strip_suffix fn = fn \/
  exists g, g <> "" /\ includes_char rparen g = false /\ fn = strip_suffix fn ++ " (" ++ g ++ ")".
Proof.
  induction fn as [|c r IH]; [left; reflexivity|].
  rewrite strip_suffix_cons.
  destruct (Ascii.eqb c space) eqn:Ec; cbn [andb].
  - destruct (group_at r) as [g|] eqn:Eg.
    + right; exists g; apply group_at_spec in Eg as [-> [Hne Hg]].
      apply Ascii.eqb_eq in Ec; subst c; split; [exact Hne|split; [exact Hg|reflexivity]].
    + destruct IH as [IH|[g [H1 [H2 H3]]]]; [left; rewrite IH; reflexivity|].
      right; exists g; split; [exact H1|split; [exact H2|]].
      transitivity (String c (strip_suffix r ++ " (" ++ g ++ ")")); [rewrite <- H3|]; reflexivity.
  - destruct IH as [IH|[g [H1 [H2 H3]]]]; [left; rewrite IH; reflexivity|].
    right; exists g; split; [exact H1|split; [exact H2|]].
    transitivity (String c (strip_suffix r ++ " (" ++ g ++ ")")); [rewrite <- H3|]; reflexivity.
Qed.

(** Loading the module defines the element and appends the card's metadata
    after the entries already in [window.customCards]; loading it again
    throws in [customElements.define] and pushes nothing. *)
Theorem load_module_once : forall win,
  existsb (String.eqb "health-bridge-card") (defined_elements win) = false ->
  snd (load_module win) = None /\
  custom_cards (fst (load_module win))
    = Some (app (match custom_cards win with Some l => l | None => [] end) [health_bridge_meta]) /\
  load_module (fst (load_module win)) = (fst (load_module win), Some NotSupportedError).
Proof.
  intros win H; unfold load_module; rewrite H; simpl.
  split; [reflexivity|split; [reflexivity|reflexivity]].
Qed.

Lemma load_module_once_witness :
  custom_cards (fst (load_module {| defined_elements := []; custom_cards := None |}))
  = Some [health_bridge_meta].
Proof.
  exact (proj1 (proj2 (load_module_once {| defined_elements := []; custom_cards := None |} eq_refl))).
Defined.

Lemma insert_index_perm : forall z k l, Permutation (insert_index z k l) ((z, k) :: l).
Proof.
  intros z k l; induction l as [|[z' k'] l IH]; simpl; [reflexivity|].
  destruct (z <=? z')%Z; [reflexivity|].
  eapply perm_trans; [apply perm_skip, IH|apply perm_swap].
Qed.

Lemma index_keys_perm : forall ks,
  Permutation (map snd (index_keys ks))
              (filter (fun k => match array_index k with Some _ => true | None => false end) ks).
Proof.
  induction ks as [|k ks IH]; simpl; [reflexivity|].
  destruct (array_index k) as [z|]; [|exact IH].
  eapply perm_trans; [apply Permutation_map, insert_index_perm|].
  simpl; apply perm_skip, IH.
Qed.

Lemma filter_split_perm : forall {A} (f : A -> bool) l,
  Permutation (app (filter f l) (filter (fun x => negb (f x)) l)) l.
Proof.
  intros A f l; induction l as [|x l IH]; simpl; [reflexivity|].
  destruct (f x); simpl; [apply perm_skip, IH|].
  eapply perm_trans; [apply Permutation_sym, Permutation_middle|apply perm_skip, IH].
Qed.

Lemma object_keys_perm : forall ks, Permutation (object_keys ks) ks.
Proof.
  intros ks; unfold object_keys.
  eapply perm_trans; [apply Permutation_app_tail, index_keys_perm|].
  eapply perm_trans; [|apply (filter_split_perm
                                (fun k => match array_index k with Some _ => true | None => false end))].
  apply Permutation_app_head.
  replace (filter (fun k => match array_index k with Some _ => false | None => true end) ks)
    with (filter (fun k => negb match array_index k with Some _ => true | None => false end) ks);
    [reflexivity|].
  apply filter_ext; intros k; destruct (array_index k); reflexivity.
Qed.

Lemma insert_index_sorted : forall z k l,
  Sorted (fun a b => (fst a <= fst b)%Z) l ->
  Sorted (fun a b => (fst a <= fst b)%Z) (insert_index z k l).
Proof.
  intros z k l; induction l as [|[z' k'] l IH]; intros Hs; simpl.
  - repeat constructor.
  - destruct (z <=? z')%Z eqn:E.
    + constructor; [exact Hs|constructor; simpl; lia].
    + apply Sorted_inv in Hs as [Hs Hh].
      constructor; [exact (IH Hs)|].
      destruct l as [|[z'' k''] l]; simpl.
      * constructor; simpl; lia.
      * destruct (z <=? z'')%Z; constructor; simpl; [lia|].
        inversion Hh; exact H0.
Qed.

(** [Object.keys(userEntityMap)]: first the canonical array-index keys in
    ascending numeric order, then every other key in insertion order. *)
Theorem object_keys_order : forall ks,
  exists L, object_keys ks
            = app (map snd L) (filter (fun k => match array_index k with Some _ => false | None => true end) ks) /\
    Sorted (fun a b => (fst a <= fst b)%Z) L /\
    (forall z k, In (z, k) L <-> In k ks /\ array_index k = Some z).
Proof.
  intros ks; exists (index_keys ks); split; [reflexivity|split; [|apply index_keys_In]].
  induction ks as [|k ks IH]; simpl; [constructor|].
  destruct (array_index k); [apply insert_index_sorted|]; exact IH.
Qed.

Lemma group_entities_inv : forall s ids m m',
  group_entities s m ids = Some m' ->
  NoDup (map fst m) -> (forall k l, In (k, l) m -> l <> []) ->
  NoDup (map fst m') /\ (forall k l, In (k, l) m' -> l <> []).
Proof.
  intros s; induction ids as [|id ids IH]; intros m m' Hg Hnd Hne.
  - inversion Hg; subst; auto.
  - rewrite group_entities_cons in Hg.
    destruct (key_of s id) as [k0|]; [|exact (IH m m' Hg Hnd Hne)].
    destruct (assoc m k0) as [l0|] eqn:Ea.
    + apply (IH _ m' Hg); [rewrite map_fst_push_at; exact Hnd|].
      intros k l Hin; destruct (push_at_In m k0 id k l Hin) as [l1 [H1 [->| ->]]];
        [exact (Hne k l1 H1)|destruct l1; discriminate].
    + destruct (is_proto_name k0); [discriminate|].
      apply (IH _ m' Hg).
      * rewrite map_app; apply NoDup_app; [exact Hnd|repeat constructor; intros []|].
        intros a Ha [E|[]]; subst a.
        apply in_map_iff in Ha as [[k l] [Hk Hin]]; simpl in Hk; subst k.
        clear - Ea Hin; induction m as [|[k' l'] m IHm]; [destruct Hin|].
        simpl in Ea; destruct (String.eqb k0 k') eqn:E; [discriminate|].
        destruct Hin as [Hin|Hin]; [inversion Hin; subst; rewrite String.eqb_refl in E; discriminate|].
        exact (IHm Ea Hin).
      * intros k l Hin; apply in_app_iff in Hin as [Hin|[Hin|[]]]; [exact (Hne k l Hin)|].
        inversion Hin; subst; discriminate.
Qed.

Lemma assoc_of_key : forall {A} (m : list (string * A)) k,
  In k (map fst m) -> exists v, assoc m k = Some v /\ In (k, v) m.
Proof.
  intros A m k; induction m as [|[k' v'] m IH]; intros H; [destruct H|]; simpl in *.
  destruct (String.eqb k k') eqn:E.
  - apply String.eqb_eq in E; subst; exists v'; auto.
  - destruct H as [H|H]; [subst; rewrite String.eqb_refl in E; discriminate|].
    destruct (IH H) as [v [Hv Hin]]; exists v; auto.
Qed.

(** Each grouping key gets exactly one section: the rendered section
    headers are pairwise distinct, and no section is drawn without cards. *)
Theorem sections_distinct_nonempty : forall t s,
  NoDup (section_headers (fst (render t s))) /\
  (forall hdr cards, In (NSection hdr cards) (fst (render t s)) -> cards <> []).
Proof.
  intros t s; unfold render.
  destruct (health_bridge_entities s) as [|e es]; [simpl; split; [constructor|intros ? ? [H|[H|[]]]; discriminate]|].
  destruct (group_entities s [] (e :: es)) as [m|] eqn:Hg;
    [|simpl; split; [constructor|intros ? ? [H|[]]; discriminate]].
  destruct (group_entities_inv s _ [] m Hg ltac:(constructor) ltac:(intros ? ? [])) as [Hnd Hne].
  split.
  - cbn [fst section_headers flat_map]; rewrite app_nil_l.
    fold (section_headers (map (user_section s m) (object_keys (map fst m)))).
    assert (Hnd' : NoDup (object_keys (map fst m)))
      by (apply (Permutation_NoDup (Permutation_sym (object_keys_perm _))); exact Hnd).
    induction (object_keys (map fst m)) as [|k ks IH]; simpl; [constructor|].
    inversion Hnd' as [|? ? Hk Hks]; subst.
    constructor; [|exact (IH Hks)].
    intros Hin; apply Hk.
    unfold section_headers in Hin; apply in_flat_map in Hin as [n [Hn Hh]].
    apply in_map_iff in Hn as [k' [<- Hk']]; simpl in Hh; destruct Hh as [Hh|[]].
    inversion Hh; subst; exact Hk'.
  - intros hdr cards Hin; simpl in Hin; destruct Hin as [H|Hin]; [discriminate|].
    apply in_map_iff in Hin as [k [Hk Hkin]]; unfold user_section in Hk; inversion Hk; subst.
    apply (Permutation_in _ (object_keys_perm _)) in Hkin.
    destruct (assoc_of_key m k Hkin) as [l [Hl Hin]]; rewrite Hl.
    specialize (Hne k l Hin); destruct l; [contradiction|discriminate].
Qed.

Lemma count_occ_filter : forall (f : string -> bool) l x,
  count_occ string_dec (filter f l) x = if f x then count_occ string_dec l x else 0.
Proof.
  intros f l x; induction l as [|y l IH]; [destruct (f x); reflexivity|].
  cbn [filter count_occ].
  destruct (string_dec y x) as [<-|Hne].
  - destruct (f y) eqn:Ey; cbn [count_occ].
    + destruct (string_dec y y) as [_|C]; [rewrite IH; reflexivity|contradiction].
    + exact IH.
  - destruct (f y); cbn [count_occ]; [destruct (string_dec y x) as [C|_]; [contradiction|]|];
      exact IH.
Qed.

Lemma count_members_concat : forall s ents L x,
  NoDup L ->
  count_occ string_dec (flat_map (fun k => members s k ents) L) x
  = match key_of s x with
    | Some k0 => if existsb (String.eqb k0) L then count_occ string_dec ents x else 0
    | None => 0
    end.
Proof.
  intros s ents L x; induction L as [|k L IH]; intros Hnd; simpl;
    [destruct (key_of s x); reflexivity|].
  inversion Hnd as [|? ? Hk Hnd']; subst.
  rewrite count_occ_app, IH by exact Hnd'; unfold members; rewrite count_occ_filter.
  destruct (key_of s x) as [k0|]; [|reflexivity].
  destruct (String.eqb k0 k) eqn:E; simpl; [|reflexivity].
  apply String.eqb_eq in E; subst k0.
  destruct (existsb (String.eqb k) L) eqn:Ex; [apply existsb_eqb_In in Ex; contradiction|].
  apply Nat.add_0_r.
Qed.

Lemma flat_map_map_comm : forall {A B C} (f : B -> C) (g : A -> list B) l,
  flat_map (fun x => map f (g x)) l = map f (flat_map g l).
Proof.
  intros A B C f g l; induction l as [|x l IH]; simpl; [reflexivity|].
  rewrite map_app, IH; reflexivity.
Qed.

(** When the render does not throw, the cards of all sections are the
    cards of the surviving entities that yield a key, each exactly once:
    no such entity is dropped or drawn twice. *)
Theorem cards_partition : forall t s,
  no_proto_keys s = true ->
  exists ids,
    Permutation ids (filter (fun id => match key_of s id with Some _ => true | None => false end)
                            (health_bridge_entities s)) /\
    section_cards (fst (render t s)) = map (fun id => metric_card (state_of s id)) ids.
Proof.
  intros t s Hp.
  destruct (health_bridge_entities s) as [|e es] eqn:Ee.
  { exists []; rewrite render_placeholder by exact Ee; split; reflexivity. }
  assert (Hne : health_bridge_entities s <> []) by (rewrite Ee; discriminate).
  rewrite (render_spec t s Hp Hne), Ee.
  set (L := object_keys (first_seen (keys_of s (e :: es)))).
  exists (flat_map (fun k => members s k (e :: es)) L); split.
  - assert (HL : NoDup L)
      by (apply (Permutation_NoDup (Permutation_sym (object_keys_perm _))), NoDup_first_seen).
    apply (Permutation_count_occ string_dec); intros x.
    rewrite count_members_concat by exact HL; rewrite count_occ_filter.
    destruct (key_of s x) as [k0|] eqn:Ek; [|reflexivity].
    destruct (existsb (String.eqb k0) L) eqn:Ex; [reflexivity|].
    symmetry; apply count_occ_not_In; intros Hx.
    assert (Hin : In k0 L).
    { unfold L; apply (Permutation_in _ (Permutation_sym (object_keys_perm _))).
      apply In_first_seen, In_keys_of; exists x; auto. }
    apply existsb_eqb_In in Hin; congruence.
  - cbn [fst section_cards flat_map]; rewrite app_nil_l.
    unfold section_cards; rewrite flat_map_concat_map, map_map; simpl.
    rewrite <- flat_map_concat_map, flat_map_map_comm; reflexivity.
Qed.

Lemma cards_partition_witness :
  no_proto_keys [("sensor.steps_alice", steps_alice); ("sensor.hr_alice", heart_alice)] = true /\
  exists ids, section_cards (fst (render (JStr "T")
                [("sensor.steps_alice", steps_alice); ("sensor.hr_alice", heart_alice)]))
              = map (fun id => metric_card (state_of
                  [("sensor.steps_alice", steps_alice); ("sensor.hr_alice", heart_alice)] id)) ids.
Proof.
  split; [reflexivity|].
  destruct (cards_partition (JStr "T") [("sensor.steps_alice", steps_alice); ("sensor.hr_alice", heart_alice)]
              eq_refl) as [ids [_ H]].
  exists ids; exact H.
Defined.

Lemma lookup_sensors : forall s x,
  id_filter x = true -> lookup (filter (fun p => id_filter (fst p)) s) x = lookup s x.
Proof.
  intros s x Hx; induction s as [|[k st] s IH]; [reflexivity|]; simpl.
  destruct (id_filter k) eqn:Ek; simpl; [destruct (String.eqb x k); [reflexivity|exact IH]|].
  destruct (String.eqb x k) eqn:E; [apply String.eqb_eq in E; subst; congruence|exact IH].
Qed.

Lemma entities_sensors : forall s,
  health_bridge_entities (filter (fun p => id_filter (fst p)) s) = health_bridge_entities s.
Proof.
  intros s; unfold health_bridge_entities.
  assert (Hm : map fst (filter (fun p => id_filter (fst p)) s) = filter id_filter (map fst s)).
  { induction s as [|[k st] s IH]; [reflexivity|]; simpl.
    destruct (id_filter k); simpl; [rewrite IH; reflexivity|exact IH]. }
  rewrite Hm.
  assert (Hi : forall L, filter id_filter (filter id_filter L) = filter id_filter L).
  { induction L as [|x L IH]; [reflexivity|]; simpl.
    destruct (id_filter x) eqn:E; simpl; [rewrite E, IH; reflexivity|exact IH]. }
  rewrite Hi; apply filter_ext_in; intros x Hx; apply filter_In in Hx as [_ Hx].
  rewrite lookup_sensors by exact Hx; reflexivity.
Qed.

Lemma group_entities_sensors : forall s ids m,
  (forall x, In x ids -> id_filter x = true) ->
  group_entities s m ids = group_entities (filter (fun p => id_filter (fst p)) s) m ids.
Proof.
  intros s; induction ids as [|x ids IH]; intros m Hall; [reflexivity|].
  rewrite !group_entities_cons.
  assert (Hk : key_of (filter (fun p => id_filter (fst p)) s) x = key_of s x)
    by (unfold key_of, state_of; rewrite lookup_sensors by (apply Hall; left; reflexivity);
        reflexivity).
  assert (Hall' : forall y, In y ids -> id_filter y = true) by (intros y Hy; apply Hall; right; exact Hy).
  rewrite Hk; destruct (key_of s x) as [k|]; [|apply IH; exact Hall'].
  destruct (assoc m k); [apply IH; exact Hall'|].
  destruct (is_proto_name k); [reflexivity|apply IH; exact Hall'].
Qed.

(** Entities whose id is not a "sensor." id with an '_' never influence
    the card: the output is that of the snapshot without them. *)
Theorem non_sensors_ignored : forall t s,
  render t s = render t (filter (fun p => id_filter (fst p)) s).
Proof.
  intros t s.
  assert (Hall : forall x, In x (health_bridge_entities s) -> id_filter x = true)
    by (intros x Hx; apply In_health_bridge_entities in Hx; tauto).
  pose proof (group_entities_sensors s _ [] Hall) as Hg.
  pose proof (entities_sensors s) as He.
  unfold render; rewrite He.
  destruct (health_bridge_entities s) as [|e es] eqn:Ee; [reflexivity|].
  rewrite <- Hg.
  destruct (group_entities s [] (e :: es)) as [m|] eqn:Em; [|reflexivity].
  do 2 f_equal; apply map_ext_in; intros k _.
  unfold user_section; destruct (assoc m k) as [l|] eqn:Ek; [|reflexivity].
  f_equal; apply map_ext_in; intros x Hx.
  destruct (in_dec string_dec x (e :: es)) as [Hin|Hn].
  - unfold state_of; rewrite lookup_sensors by (apply Hall; exact Hin); reflexivity.
  - exfalso; refine (group_entities_absent s x (e :: es) [] m Em _ _ k l (assoc_In m k l Ek) Hx).
    + intros ? ? [].
    + intros y Hy _ E; subst; contradiction.
Qed.
